(** * Event-log delivery: outbox, delivery backends and background jobs

    A shallow embedding of [event_logs/client.py], [event_logs/tasks.py],
    [event_logs/models.py] and of the insertion step of
    [core/use_case.py], with the properties of the specification stated and
    settled against it.

    Conventions of the embedding:
    - Python [str] values are [string]s; class names are ASCII.
    - A [datetime] is a number of microseconds ([Z]).
    - Python code that reads the clock, touches the database, talks to the
      analytics store, logs or raises is a computation in the monad [M]: a
      function from the state of the world to an outcome (a value or a raised
      exception) and the next state.
    - Exceptions are the instances of Python's [Exception] class. *)

From Stdlib Require Import List String Ascii ZArith Lia Bool Arith.
From Stdlib Require Import DecimalString.
Import ListNotations.
Local Open Scope string_scope.
Local Open Scope list_scope.

(** ** Character classes and strings *)

Module Chars.

Definition code (c : ascii) : nat := nat_of_ascii c.

(** The class [[A-Z]]. *)
Definition is_upper (c : ascii) : bool :=
  Nat.leb 65 (code c) && Nat.leb (code c) 90.

(** The class [[a-z]]. *)
Definition is_lower (c : ascii) : bool :=
  Nat.leb 97 (code c) && Nat.leb (code c) 122.

(** The class [[0-9]]. *)
Definition is_digit (c : ascii) : bool :=
  Nat.leb 48 (code c) && Nat.leb (code c) 57.

(** The class [[a-z0-9]]. *)
Definition is_lower_or_digit (c : ascii) : bool :=
  is_lower c || is_digit c.

(** The class [.]: any character but a line feed. *)
Definition is_dot (c : ascii) : bool :=
  negb (Nat.eqb (code c) 10).

Definition underscore : ascii := "_"%char.

(** [str.lower] on one ASCII character. *)
Definition lower_char (c : ascii) : ascii :=
  if is_upper c then ascii_of_nat (code c + 32) else c.

Definition chars (s : string) : list ascii := list_ascii_of_string s.
Definition str (l : list ascii) : string := string_of_list_ascii l.

End Chars.
Import Chars.

(** ** [re.sub] for a pattern that never matches the empty string

    [re.sub(pattern, repl, s)] scans [s] from the left.  At each position it
    tries the pattern; on a match it emits the expanded replacement and
    resumes right after the matched text, otherwise it emits the character at
    that position and moves one character on.  Matches are thus the leftmost,
    non-overlapping ones.

    A [matcher] is the pattern together with its replacement template: given
    the text that starts at the current position, it answers the expansion of
    the template and the length of the matched text, or [None] when the
    pattern does not match there. *)

Module Re.

Definition matcher := list ascii -> option (list ascii * nat).

(** [skip] is the number of characters left to jump over, being part of the
    last match. *)
Fixpoint sub_from (m : matcher) (skip : nat) (s : list ascii) : list ascii :=
  match s with
  | [] => []
  | c :: tl =>
      match skip with
      | S k => sub_from m k tl
      | O =>
          match m s with
          | Some (repl, len) => repl ++ sub_from m (pred len) tl
          | None => c :: sub_from m 0 tl
          end
      end
  end.

Definition sub (m : matcher) (s : list ascii) : list ascii := sub_from m 0 s.

(** The longest prefix of [s] in the class [p] (a greedy [p+] or [p*]). *)
Fixpoint span (p : ascii -> bool) (s : list ascii) : list ascii :=
  match s with
  | c :: tl => if p c then c :: span p tl else []
  | [] => []
  end.

(** ["(.)([A-Z][a-z]+)"] with the template ["\1_\2"]. *)
Definition upper_word : matcher := fun s =>
  match s with
  | c :: u :: l :: rest =>
      if is_dot c && is_upper u && is_lower l
      then let run := span is_lower rest in
           Some (c :: underscore :: u :: l :: run, 3 + List.length run)
      else None
  | _ => None
  end.

(** ["([a-z0-9])([A-Z])"] with the template ["\1_\2"]. *)
Definition lower_upper : matcher := fun s =>
  match s with
  | c :: u :: _ =>
      if is_lower_or_digit c && is_upper u
      then Some ([c; underscore; u], 2)
      else None
  | _ => None
  end.

End Re.

(** ** [EventLogClientProtocol._to_snake_case] *)

Definition lower (s : list ascii) : list ascii := map lower_char s.

Definition _to_snake_case (event_name : string) : string :=
  let result := Re.sub Re.upper_word (chars event_name) in
  str (lower (Re.sub Re.lower_upper result)).

(** The rule as the specification words it: an underscore goes between a
    lowercase letter or digit and the uppercase letter after it, and between
    an uppercase letter that starts a lowercase word (the last letter of a
    run of capitals) and the character before it; then everything is
    lowercased.  [prev] is the character before [s] in the name. *)

Definition underscore_between (prev c : ascii) (next : option ascii) : bool :=
  is_upper c &&
  (is_lower_or_digit prev ||
   match next with Some n => is_lower n | None => false end).

Fixpoint snake_spec_from (prev : option ascii) (s : list ascii) : list ascii :=
  match s with
  | [] => []
  | c :: tl =>
      let sep := match prev with
                 | Some p => underscore_between p c (hd_error tl)
                 | None => false
                 end in
      (if sep then [underscore] else []) ++ lower_char c :: snake_spec_from (Some c) tl
  end.

Definition snake_spec (event_name : string) : string :=
  str (snake_spec_from None (chars event_name)).

(** A name without line feeds, as every class name is. *)
Definition one_line (event_name : string) : bool :=
  forallb is_dot (chars event_name).

(** ** Values, exceptions, rows *)

(** The instances of [Exception] the code meets.  [DatabaseError] is the
    driver's [clickhouse_connect.driver.exceptions.DatabaseError];
    [SerializationError] is what [model_dump_json] raises on a payload that
    cannot be encoded; [DataError] is [django.db.utils.DataError], the
    database refusing a value; [OtherException] stands for any other
    instance. *)
Inductive exn : Type :=
| DatabaseError (msg : string)
| SerializationError (msg : string)
| ValueError (msg : string)
| AttributeError (msg : string)
| NameError (msg : string)
| TypeError (msg : string)
| DataError (msg : string)
| OtherException (msg : string).

(** [str(e)] *)
Definition str_exn (e : exn) : string :=
  match e with
  | DatabaseError m | SerializationError m | ValueError m
  | AttributeError m | NameError m | TypeError m | DataError m
  | OtherException m => m
  end.

(** [isinstance(e, DatabaseError)] *)
Definition is_DatabaseError (e : exn) : bool :=
  match e with DatabaseError _ => true | _ => false end.

Inductive Outcome (A : Type) : Type :=
| Return (a : A)
| Raise (e : exn).
Arguments Return {A} a.
Arguments Raise {A} e.

Inductive value : Type :=
| VStr (s : string)
| VTime (t : Z)
| VBool (b : bool)
| VInt (n : nat).

(** [event_logs/models.py]: a row of the table [event_log_outbox]. *)
Record EventLogOutbox : Type := {
  pk : nat;
  event_type : string;
  event_date_time : Z;
  environment : string;
  event_context : string;
  is_sent : bool
}.

(** The bounds of the two [CharField]s of the model. *)
Definition EVENT_TYPE_MAX_LENGTH : nat := 50.
Definition ENVIRONMENT_MAX_LENGTH : nat := 20.

(** The values of a row are within the bounds of their columns. *)
Definition fits_columns (r : EventLogOutbox) : bool :=
  Nat.leb (String.length (event_type r)) EVENT_TYPE_MAX_LENGTH &&
  Nat.leb (String.length (environment r)) ENVIRONMENT_MAX_LENGTH.

(** [getattr(log, name)] *)
Definition getattr (log : EventLogOutbox) (name : string) : Outcome value :=
  if String.eqb name "event_type" then Return (VStr (event_type log))
  else if String.eqb name "event_date_time" then Return (VTime (event_date_time log))
  else if String.eqb name "environment" then Return (VStr (environment log))
  else if String.eqb name "event_context" then Return (VStr (event_context log))
  else if String.eqb name "is_sent" then Return (VBool (is_sent log))
  else if String.eqb name "id" then Return (VInt (pk log))
  else Raise (AttributeError name).

(** [ConvertedData = list[tuple[str, datetime.datetime, str, str]]] *)
Definition ConvertedTuple : Type := (string * Z * string * string)%type.
Definition ConvertedData : Type := list ConvertedTuple.

(** What is handed to the driver as one row: a tuple, or the generator
    expression [(getattr(log, col_name) for col_name in cols)] of the
    reconciliation job.  The generator has evaluated [cols] when it was
    created; its element expression would run when the generator is
    iterated.  A generator is no sequence: it has no length. *)
Inductive RowIter : Type :=
| Tuple (vs : list value)
| Genexpr (cols : list string).

Definition tuple_of (t : ConvertedTuple) : list value :=
  let '(et, dt, env, ctx) := t in [VStr et; VTime dt; VStr env; VStr ctx].

(** The persisted tuple of an outbox row, in the order of the columns of the
    analytics store. *)
Definition persisted (log : EventLogOutbox) : list value :=
  [VStr (event_type log); VTime (event_date_time log);
   VStr (environment log); VStr (event_context log)].

(** Modelled from the spec: [core.base_model.Model], which is not among the
    sources.  An event is a serializable domain fact with a type name and a
    payload; [model_dump_json] is the JSON text of the payload, or the
    serialization error when a field cannot be encoded. *)
Record Model : Type := {
  class_name : string;
  model_dump_json : Outcome string
}.

(** Modelled from the spec: the process-wide deployment configuration
    ([django.conf.settings]), which is not among the sources. *)
Record Settings : Type := {
  ENVIRONMENT : string;
  EVENT_SAVER_TYPE : string
}.

Inductive Level : Type := ERROR | INFO | DEBUG.

(** One call of the structured logger. *)
Record LogEntry : Type := {
  level : Level;
  event : string;
  error : string
}.

(** ** The state of the world

    - [clock] and [tick]: the [tick]-th reading of the clock returns
      [clock tick].
    - [outbox], [next_pk]: the table [event_log_outbox] and its sequence.
    - [ch_table]: the rows of the event-log table of the analytics store.
      [ch_connect_fault] and [ch_insert_fault] say how the store answers:
      [None] is an accepted request, [Some e] a request that raises [e].
      [ch_open] counts the open connections.
    - [logged]: the calls of the logger, oldest first.
    - [var_log], [var_logs_to_send]: the local variables [log] and
      [logs_to_send] of the running reconciliation job ([None]: unbound). *)
Record World : Type := {
  settings : Settings;
  clock : nat -> Z;
  tick : nat;
  outbox : list EventLogOutbox;
  next_pk : nat;
  ch_table : list (list value);
  ch_connect_fault : option exn;
  ch_insert_fault : option exn;
  ch_open : nat;
  logged : list LogEntry;
  var_log : option EventLogOutbox;
  var_logs_to_send : option (list RowIter)
}.

Definition set_tick (n : nat) (w : World) : World :=
  {| settings := settings w; clock := clock w; tick := n;
     outbox := outbox w; next_pk := next_pk w; ch_table := ch_table w;
     ch_connect_fault := ch_connect_fault w; ch_insert_fault := ch_insert_fault w;
     ch_open := ch_open w; logged := logged w;
     var_log := var_log w; var_logs_to_send := var_logs_to_send w |}.

Definition set_outbox (rows : list EventLogOutbox) (next : nat) (w : World) : World :=
  {| settings := settings w; clock := clock w; tick := tick w;
     outbox := rows; next_pk := next; ch_table := ch_table w;
     ch_connect_fault := ch_connect_fault w; ch_insert_fault := ch_insert_fault w;
     ch_open := ch_open w; logged := logged w;
     var_log := var_log w; var_logs_to_send := var_logs_to_send w |}.

Definition set_ch_table (rows : list (list value)) (w : World) : World :=
  {| settings := settings w; clock := clock w; tick := tick w;
     outbox := outbox w; next_pk := next_pk w; ch_table := rows;
     ch_connect_fault := ch_connect_fault w; ch_insert_fault := ch_insert_fault w;
     ch_open := ch_open w; logged := logged w;
     var_log := var_log w; var_logs_to_send := var_logs_to_send w |}.

Definition set_ch_open (n : nat) (w : World) : World :=
  {| settings := settings w; clock := clock w; tick := tick w;
     outbox := outbox w; next_pk := next_pk w; ch_table := ch_table w;
     ch_connect_fault := ch_connect_fault w; ch_insert_fault := ch_insert_fault w;
     ch_open := n; logged := logged w;
     var_log := var_log w; var_logs_to_send := var_logs_to_send w |}.

Definition set_logged (l : list LogEntry) (w : World) : World :=
  {| settings := settings w; clock := clock w; tick := tick w;
     outbox := outbox w; next_pk := next_pk w; ch_table := ch_table w;
     ch_connect_fault := ch_connect_fault w; ch_insert_fault := ch_insert_fault w;
     ch_open := ch_open w; logged := l;
     var_log := var_log w; var_logs_to_send := var_logs_to_send w |}.

Definition set_var_log (v : option EventLogOutbox) (w : World) : World :=
  {| settings := settings w; clock := clock w; tick := tick w;
     outbox := outbox w; next_pk := next_pk w; ch_table := ch_table w;
     ch_connect_fault := ch_connect_fault w; ch_insert_fault := ch_insert_fault w;
     ch_open := ch_open w; logged := logged w;
     var_log := v; var_logs_to_send := var_logs_to_send w |}.

Definition set_var_logs_to_send (v : option (list RowIter)) (w : World) : World :=
  {| settings := settings w; clock := clock w; tick := tick w;
     outbox := outbox w; next_pk := next_pk w; ch_table := ch_table w;
     ch_connect_fault := ch_connect_fault w; ch_insert_fault := ch_insert_fault w;
     ch_open := ch_open w; logged := logged w;
     var_log := var_log w; var_logs_to_send := v |}.

(** ** The monad of Python computations *)

Definition M (A : Type) : Type := World -> Outcome A * World.

Definition ret {A} (a : A) : M A := fun w => (Return a, w).

Definition raise {A} (e : exn) : M A := fun w => (Raise e, w).

Definition bind {A B} (m : M A) (k : A -> M B) : M B := fun w =>
  match m w with
  | (Return a, w') => k a w'
  | (Raise e, w') => (Raise e, w')
  end.

Notation "x <- m ;; k" := (bind m (fun x => k))
  (at level 61, m at next level, right associativity).
Notation "m ;;; k" := (bind m (fun _ => k))
  (at level 61, right associativity).

Definition lift {A} (o : Outcome A) : M A := fun w => (o, w).

Definition gets {A} (f : World -> A) : M A := fun w => (Return (f w), w).

Definition modify (f : World -> World) : M unit := fun w => (Return tt, f w).

(** [try: body / except <class> as e: handler e], where [catches e] says
    whether [e] is an instance of the class. *)
Definition try_except {A} (body : M A) (catches : exn -> bool)
    (handler : exn -> M A) : M A := fun w =>
  match body w with
  | (Return a, w') => (Return a, w')
  | (Raise e, w') => if catches e then handler e w' else (Raise e, w')
  end.

(** [try: body / finally: final]: [final] runs whatever [body] did; when it
    completes, the outcome of [body] stands. *)
Definition try_finally {A} (body : M A) (final : M unit) : M A := fun w =>
  match body w with
  | (o, w') =>
      match final w' with
      | (Return _, w'') => (o, w'')
      | (Raise e, w'') => (Raise e, w'')
      end
  end.

(** A list comprehension whose element expression has effects. *)
Fixpoint for_each {A B} (f : A -> M B) (l : list A) : M (list B) :=
  match l with
  | [] => ret []
  | x :: tl => y <- f x ;; ys <- for_each f tl ;; ret (y :: ys)
  end.

(** ** Clock, logger *)

(** [timezone.now()] *)
Definition timezone_now : M Z := fun w =>
  (Return (clock w (tick w)), set_tick (S (tick w)) w).

(** [timedelta(days=n)], in microseconds. *)
Definition timedelta_days (n : Z) : Z := (n * 86400 * 1000000)%Z.

(** [logger.error(event, error=err)] *)
Definition logger_error (ev err : string) : M unit :=
  modify (fun w => set_logged (logged w ++ [{| level := ERROR; event := ev; error := err |}]) w).

(** [logger.info(event, ...)] *)
Definition logger_info (ev : string) : M unit :=
  modify (fun w => set_logged (logged w ++ [{| level := INFO; event := ev; error := "" |}]) w).

(** The decimal text of a number in an f-string. *)
Definition show (n : nat) : string := NilEmpty.string_of_uint (Nat.to_uint n).

(** ** The table [event_log_outbox] through the ORM

    A queryset is lazy: it is a predicate on rows, and every operation on it
    runs its own query on the table as the table is at that moment. *)

Module ORM.

Definition QuerySet : Type := EventLogOutbox -> bool.

Definition with_pk (n : nat) (r : EventLogOutbox) : EventLogOutbox :=
  {| pk := n; event_type := event_type r; event_date_time := event_date_time r;
     environment := environment r; event_context := event_context r;
     is_sent := is_sent r |}.

Definition with_is_sent (b : bool) (r : EventLogOutbox) : EventLogOutbox :=
  {| pk := pk r; event_type := event_type r; event_date_time := event_date_time r;
     environment := environment r; event_context := event_context r;
     is_sent := b |}.

(** The database gives the new rows consecutive keys. *)
Fixpoint number (next : nat) (records : list EventLogOutbox) : list EventLogOutbox :=
  match records with
  | [] => []
  | r :: tl => with_pk next r :: number (S next) tl
  end.

(** [objects.bulk_create(records)]: one statement, which the database
    refuses as a whole when a value is longer than its column allows (a
    database that enforces the declared lengths). *)
Definition bulk_create (records : list EventLogOutbox) : M unit :=
  if forallb fits_columns records
  then modify (fun w => set_outbox (outbox w ++ number (next_pk w) records)
                                   (next_pk w + List.length records) w)
  else raise (DataError "value too long for type character varying").

(** [qs.exists()] *)
Definition exists_ (qs : QuerySet) : M bool :=
  gets (fun w => existsb qs (outbox w)).

(** Iterating [qs]. *)
Definition fetch (qs : QuerySet) : M (list EventLogOutbox) :=
  gets (fun w => filter qs (outbox w)).

(** [qs.update(is_sent=b)]; answers the number of rows matched. *)
Definition update_is_sent (qs : QuerySet) (b : bool) : M nat := fun w =>
  (Return (List.length (filter qs (outbox w))),
   set_outbox (map (fun r => if qs r then with_is_sent b r else r) (outbox w))
              (next_pk w) w).

(** [qs.delete()]; answers the number of rows deleted (no other table
    refers to this one). *)
Definition delete (qs : QuerySet) : M nat := fun w =>
  (Return (List.length (filter qs (outbox w))),
   set_outbox (filter (fun r => negb (qs r)) (outbox w)) (next_pk w) w).

End ORM.

(** ** The driver of the analytics store ([clickhouse_connect])

    The driver is an external library.  Of it the embedding keeps that a
    request to the store either raises or is accepted; that the client,
    before it sends anything, takes the length of the rows it was handed, so
    that a row that is no sequence raises [TypeError]; and that an accepted
    insert appends the rows to the table. *)

Module Driver.

Record Client : Type := { conn : nat }.

(** [clickhouse_connect.get_client(...)] *)
Definition get_client : M Client := fun w =>
  match ch_connect_fault w with
  | Some e => (Raise e, w)
  | None => (Return {| conn := ch_open w |}, set_ch_open (S (ch_open w)) w)
  end.

(** [client.close()] *)
Definition close (c : Client) : M unit :=
  modify (fun w => set_ch_open (pred (ch_open w)) w).

(** A row as the sequence the client needs: [len(row)] of a generator
    raises. *)
Definition as_sequence (r : RowIter) : M (list value) :=
  match r with
  | Tuple vs => ret vs
  | Genexpr _ => raise (TypeError "object of type 'generator' has no len()")
  end.

(** [client.insert(data=..., column_names=..., database=..., table=...)] *)
Definition insert (c : Client) (data : list RowIter) : M unit := fun w =>
  match ch_insert_fault w with
  | Some e => (Raise e, w)
  | None =>
      (rows <- for_each as_sequence data ;;
       modify (fun w' => set_ch_table (ch_table w' ++ rows) w')) w
  end.

End Driver.

(** ** [event_logs/client.py] *)

(** [EventLogClientProtocol._convert_data] *)
Definition _convert_data (data : list Model) : M ConvertedData :=
  for_each (fun event =>
              let name := _to_snake_case (class_name event) in
              now <- timezone_now ;;
              env <- gets (fun w => ENVIRONMENT (settings w)) ;;
              ctx <- lift (model_dump_json event) ;;
              ret (name, now, env, ctx)) data.

Module ClickhouseEventLogClient.

Definition EVENT_LOG_COLUMNS : list string :=
  ["event_type"; "event_date_time"; "environment"; "event_context"].

(** [with ClickhouseEventLogClient.init() as client: body client].  The
    handler is [except Exception], which takes every exception. *)
Definition init (body : Driver.Client -> M unit) : M unit :=
  client <- Driver.get_client ;;
  try_finally
    (try_except (body client) (fun _ => true)
       (fun e => logger_error "error while executing clickhouse query" (str_exn e)))
    (Driver.close client).

Definition insert (self : Driver.Client) (data : list Model) : M unit :=
  try_except
    (converted <- _convert_data data ;;
     Driver.insert self (map (fun t => Tuple (tuple_of t)) converted))
    is_DatabaseError
    (fun e => logger_error "unable to insert data to clickhouse" (str_exn e)).

Definition insert_raw (self : Driver.Client) (data : list RowIter) : M unit :=
  try_except
    (Driver.insert self data)
    is_DatabaseError
    (fun e => logger_error "unable to insert data to clickhouse" (str_exn e)).

End ClickhouseEventLogClient.

Module StubEventLogClient.

Definition insert (data : list Model) : M unit := ret tt.

End StubEventLogClient.

Module OutboxEventLogClient.

Definition _save_to_outbox (converted_data : ConvertedData) : M unit :=
  let outbox_records :=
    map (fun t : ConvertedTuple =>
           let '(et, dt, env, ctx) := t in
           {| pk := 0; event_type := et; event_date_time := dt;
              environment := env; event_context := ctx; is_sent := false |})
        converted_data in
  ORM.bulk_create outbox_records.

Definition insert (data : list Model) : M unit :=
  converted <- _convert_data data ;;
  _save_to_outbox converted.

End OutboxEventLogClient.

(** An instance of one of the three client classes. *)
Inductive EventLogClient : Type :=
| StubClient
| ClickhouseClient (client : Driver.Client)
| OutboxClient.

(** [es.insert(data)], dispatched on the class of [es]. *)
Definition insert (es : EventLogClient) (data : list Model) : M unit :=
  match es with
  | StubClient => StubEventLogClient.insert data
  | ClickhouseClient c => ClickhouseEventLogClient.insert c data
  | OutboxClient => OutboxEventLogClient.insert data
  end.

(** The classes, and [cls.init] as the context manager it makes: what
    [with cls.init() as es: body es] does. *)
Inductive ClientClass : Type :=
| StubEventLogClient_cls
| ClickhouseEventLogClient_cls
| OutboxEventLogClient_cls.

Definition init (cls : ClientClass) (body : EventLogClient -> M unit) : M unit :=
  match cls with
  | StubEventLogClient_cls => body StubClient
  | ClickhouseEventLogClient_cls =>
      ClickhouseEventLogClient.init (fun c => body (ClickhouseClient c))
  | OutboxEventLogClient_cls => body OutboxClient
  end.

(** [get_event_saver]: the class whose [init] is returned, or the
    [ValueError]. *)
Definition get_event_saver (event_saver_type : string) : Outcome ClientClass :=
  if String.eqb event_saver_type "STUB" then Return StubEventLogClient_cls
  else if String.eqb event_saver_type "CLICKHOUSE" then Return ClickhouseEventLogClient_cls
  else if String.eqb event_saver_type "OUTBOX" then Return OutboxEventLogClient_cls
  else Raise (ValueError (String.append "Unknown event saver type: " event_saver_type)).

(** [insert_to_event_log(saver_factory)(func)] called with the arguments
    [args]: the wrapper the decorator makes of [func].  [saver_factory()] is used as a context
    manager; it is given as what [with saver_factory() as client: body client]
    does. *)
Definition insert_to_event_log
    (saver_factory : (EventLogClient -> M unit) -> M unit)
    {Args : Type} (func : Args -> M (list Model)) (args : Args) : M (list Model) :=
  result <- func args ;;
  saver_factory (fun client =>
    insert client result ;;;
    logger_info "Event logs inserted by client") ;;;
  ret result.

(** ** [core/use_case.py] *)

Record UseCaseResponse (R : Type) : Type := {
  result : option R;
  response_error : string
}.
Arguments result {R} _.
Arguments response_error {R} _.

(** A use case: the class attribute and the two methods a subclass gives. *)
Record UseCase (Req R : Type) : Type := {
  is_save_event_logs : bool;
  _execute : Req -> M (UseCaseResponse R);
  _convert_response_to_log_models : R -> list Model
}.
Arguments is_save_event_logs {Req R} _.
Arguments _execute {Req R} _ _.
Arguments _convert_response_to_log_models {Req R} _ _.

(** [with get_event_saver(settings.EVENT_SAVER_TYPE)() as es:
       es.insert(event_models)] *)
Definition save_event_logs (event_models : list Model) : M unit :=
  saver_type <- gets (fun w => EVENT_SAVER_TYPE (settings w)) ;;
  cls <- lift (get_event_saver saver_type) ;;
  init cls (fun es => insert es event_models).

(** [UseCase.execute] (the logging context it binds is left out). *)
Definition execute {Req R} (self : UseCase Req R) (request : Req)
    : M (UseCaseResponse R) :=
  response <- _execute self request ;;
  (if is_save_event_logs self
   then match result response with
        | Some r => save_event_logs (_convert_response_to_log_models self r)
        | None => ret tt
        end
   else ret tt) ;;;
  ret response.

(** ** [event_logs/tasks.py] *)

(** [EventLogOutbox.objects.select_for_update().filter(is_sent=False)].  The
    job opens no transaction, and a row lock does not keep other processes
    from adding rows: the locks asked for are not part of the embedding.
    The embedding is of the runs in which the database executes the queries
    of this queryset (a database without row locks, or an invoker that has
    opened a transaction); where the database refuses a locking query
    outside a transaction, the job raises at its first query. *)
Definition unsent_logs : ORM.QuerySet := fun r => negb (is_sent r).

(** The comprehension
    [[(getattr(log, col_name) for col_name in cols) for log in unsent_logs]]:
    each round binds [log] to the next row and makes one generator. *)
Definition logs_comprehension (cols : list string) : M (list RowIter) :=
  rows <- ORM.fetch unsent_logs ;;
  for_each (fun log =>
              modify (set_var_log (Some log)) ;;;
              ret (Genexpr cols)) rows.

(** The [with] statement of the job: the rows are read and handed to the
    store. *)
Definition flush_unsent_logs : M unit :=
  ClickhouseEventLogClient.init (fun clickhouse_client =>
    logs <- logs_comprehension ClickhouseEventLogClient.EVENT_LOG_COLUMNS ;;
    modify (set_var_logs_to_send (Some logs)) ;;;
    ClickhouseEventLogClient.insert_raw clickhouse_client logs).

(** The two statements after the [with] statement. *)
Definition mark_and_report : M string :=
  ORM.update_is_sent unsent_logs true ;;;
  logs_to_send <- gets var_logs_to_send ;;
  match logs_to_send with
  | Some l =>
      ret (String.append "Successfully sent "
             (String.append (show (List.length l)) " logs to Clickhouse."))
  | None => raise (NameError "logs_to_send")
  end.

Definition send_unsent_logs_to_clickhouse : M string :=
  modify (fun w => set_var_logs_to_send None (set_var_log None w)) ;;;
  some <- ORM.exists_ unsent_logs ;;
  if negb some then ret "No unsent logs to process."
  else flush_unsent_logs ;;; mark_and_report.

(** A run of the job during which another process commits [other] after the
    job has read and flushed the unsent rows and before it marks them: the
    job holds no lock that keeps rows from being added. *)
Definition send_unsent_logs_interleaved (other : M unit) : M string :=
  modify (fun w => set_var_logs_to_send None (set_var_log None w)) ;;;
  some <- ORM.exists_ unsent_logs ;;
  if negb some then ret "No unsent logs to process."
  else flush_unsent_logs ;;; other ;;; mark_and_report.

Definition delete_sent_logs : M string :=
  now <- timezone_now ;;
  let retention_period := (now - timedelta_days 30)%Z in
  let sent_logs : ORM.QuerySet :=
    fun r => is_sent r && Z.ltb (event_date_time r) retention_period in
  deleted_count <- ORM.delete sent_logs ;;
  ret (String.append "Deleted " (String.append (show deleted_count) " sent logs.")).

(** ** Auxiliary definitions of the proofs *)

(** The second substitution, read as one pass that remembers the character
    before the current one. *)
Definition sep2 (prev : option ascii) (c : ascii) : bool :=
  match prev with
  | Some p => is_lower_or_digit p && is_upper c
  | None => false
  end.

Fixpoint lower_upper_from (prev : option ascii) (t : list ascii) : list ascii :=
  match t with
  | [] => []
  | c :: tl =>
      (if sep2 prev c then [underscore] else []) ++ c :: lower_upper_from (Some c) tl
  end.

(** What the first substitution leaves to the second: when the text [s] after
    [prev] begins with an uppercase letter that starts a lowercase word and
    the first substitution did not separate it from [prev], then [prev] is a
    lowercase letter or a digit. *)
Definition first_pass_done (prev : option ascii) (s : list ascii) : Prop :=
  match prev, s with
  | Some p, u :: l :: _ =>
      is_upper u = true -> is_lower l = true -> is_lower_or_digit p = true
  | _, _ => True
  end.

(** Two states of the world that differ at most in the number of clock
    readings. *)
Definition same_but_tick (w w' : World) : Prop :=
  w' = set_tick (tick w') w /\ tick w <= tick w'.

(** The binding of the comprehension variable after the rounds for [rows],
    [old] being its binding before. *)
Definition bound_after (rows : list EventLogOutbox) (old : option EventLogOutbox)
    : option EventLogOutbox :=
  fold_left (fun _ log => Some log) rows old.

(** The generators the comprehension makes for [rows]. *)
Definition generators (rows : list EventLogOutbox) : list RowIter :=
  map (fun _ => Genexpr ClickhouseEventLogClient.EVENT_LOG_COLUMNS) rows.

(** The table after [update(is_sent=True)] on the unsent rows. *)
Definition all_marked (rows : list EventLogOutbox) : list EventLogOutbox :=
  map (fun r => if unsent_logs r then ORM.with_is_sent true r else r) rows.

(** The status of a run that reached its end. *)
Definition success_status (n : nat) : string :=
  String.append "Successfully sent " (String.append (show n) " logs to Clickhouse.").

(** The records [_save_to_outbox] makes of converted data, before they have
    a key. *)
Definition outbox_records (converted : ConvertedData) : list EventLogOutbox :=
  map (fun t : ConvertedTuple =>
         let '(et, dt, env, ctx) := t in
         {| pk := 0; event_type := et; event_date_time := dt;
            environment := env; event_context := ctx; is_sent := false |})
      converted.

(** The values of the batch are within the bounds of the columns of the
    outbox: the configured environment, and the event type of every event. *)
Definition within_bounds (w : World) (data : list Model) : Prop :=
  String.length (ENVIRONMENT (settings w)) <= ENVIRONMENT_MAX_LENGTH /\
  Forall (fun event =>
            String.length (_to_snake_case (class_name event)) <= EVENT_TYPE_MAX_LENGTH)
         data.

(** A name of ASCII characters. *)
Definition ascii_name (event_name : string) : bool :=
  forallb (fun c => Nat.ltb (code c) 128) (chars event_name).

(** The error the client raises on the rows of the job. *)
Definition generator_row_error : exn :=
  TypeError "object of type 'generator' has no len()".

(** The components of a converted record. *)
Definition type_of (t : ConvertedTuple) : string := let '(et, _, _, _) := t in et.
Definition time_of (t : ConvertedTuple) : Z := let '(_, dt, _, _) := t in dt.
Definition context_of (t : ConvertedTuple) : string := let '(_, _, _, ctx) := t in ctx.

(** Every payload of the batch can be encoded. *)
Definition encodable (data : list Model) : Prop :=
  Forall (fun event => exists ctx, model_dump_json event = Return ctx) data.

(** The clock never goes back. *)
Definition monotone (clk : nat -> Z) : Prop :=
  forall i j, i <= j -> (clk i <= clk j)%Z.

(** The keys of the outbox are distinct and below the next key of the
    sequence. *)
Definition well_keyed (w : World) : Prop :=
  NoDup (map pk (outbox w)) /\
  Forall (fun r => pk r < next_pk w) (outbox w).

(** A text without its underscores. *)
Definition letters (s : list ascii) : list ascii :=
  filter (fun c => negb (Ascii.eqb c underscore)) s.

(** The world at the start of a run of the reconciliation job: its local
    variables are unbound. *)
Definition fresh_frame (w : World) : World :=
  set_var_logs_to_send None (set_var_log None w).

(** The entry [logger.info("Event logs inserted by client", ...)] leaves. *)
Definition inserted_entry : LogEntry :=
  {| level := INFO; event := "Event logs inserted by client"; error := "" |}.

(** * Properties *)

(** ** Event-type derivation *)

Ltac classes :=
  unfold is_lower_or_digit, is_upper, is_lower, is_digit; intros;
  repeat match goal with
         | H : _ = true |- _ =>
             progress (repeat rewrite ?orb_true_iff, ?andb_true_iff, ?Nat.leb_le in H)
         end;
  repeat rewrite ?orb_false_iff, ?andb_false_iff, ?orb_true_iff, ?andb_true_iff,
    ?Nat.leb_le, ?Nat.leb_gt;
  lia.

Lemma upper_not_lower c : is_upper c = true -> is_lower c = false.
Proof. classes. Qed.

Lemma upper_not_lower_or_digit c : is_upper c = true -> is_lower_or_digit c = false.
Proof. classes. Qed.

Lemma lower_not_upper c : is_lower c = true -> is_upper c = false.
Proof. classes. Qed.

Lemma lower_is_lower_or_digit c : is_lower c = true -> is_lower_or_digit c = true.
Proof. classes. Qed.

Lemma lower_char_id c : is_upper c = false -> lower_char c = c.
Proof. unfold lower_char. intros ->. reflexivity. Qed.

Lemma sub_from_skip m k : forall s, Re.sub_from m k s = Re.sub m (skipn k s).
Proof.
  induction k as [|k IH]; intros s.
  - reflexivity.
  - destruct s as [|c tl]; simpl; [reflexivity|]. apply IH.
Qed.

Lemma sub_nomatch m c tl :
  m (c :: tl) = None -> Re.sub m (c :: tl) = c :: Re.sub m tl.
Proof. unfold Re.sub. simpl. intros ->. reflexivity. Qed.

Lemma sub_match m c tl repl len :
  m (c :: tl) = Some (repl, len) ->
  Re.sub m (c :: tl) = repl ++ Re.sub m (skipn (pred len) tl).
Proof. unfold Re.sub at 1. simpl. intros ->. now rewrite sub_from_skip. Qed.

Lemma span_skipn p s : Re.span p s ++ skipn (List.length (Re.span p s)) s = s.
Proof.
  induction s as [|c tl IH]; simpl; [reflexivity|].
  destruct (p c); simpl; [now rewrite IH | reflexivity].
Qed.

Lemma span_all p s : forallb p (Re.span p s) = true.
Proof.
  induction s as [|c tl IH]; simpl; [reflexivity|].
  destruct (p c) eqn:E; simpl; [now rewrite E | reflexivity].
Qed.

Lemma skipn_span_length p s :
  List.length (skipn (List.length (Re.span p s)) s) <= List.length s.
Proof. rewrite length_skipn. lia. Qed.

(** The second substitution is the one-pass reading of it. *)
Lemma sub_lower_upper_from n : forall t p,
  List.length t <= n ->
  match t with c :: _ => sep2 p c = false | [] => True end ->
  Re.sub Re.lower_upper t = lower_upper_from p t.
Proof.
  induction n as [|n IH]; intros t p Hn Hp.
  - destruct t; [reflexivity | simpl in Hn; lia].
  - destruct t as [|c tl]; [reflexivity|].
    simpl lower_upper_from. rewrite Hp. simpl app.
    destruct (Re.lower_upper (c :: tl)) as [[repl len]|] eqn:Em.
    + rewrite (sub_match _ _ _ _ _ Em).
      unfold Re.lower_upper in Em. destruct tl as [|u tl']; [discriminate|].
      destruct (is_lower_or_digit c && is_upper u) eqn:Ec; [|discriminate].
      injection Em as <- <-.
      simpl. rewrite Ec. simpl. do 3 f_equal.
      apply andb_true_iff in Ec. destruct Ec as [_ Hu].
      apply IH; [simpl in Hn; lia|].
      destruct tl'; [exact I|]. simpl.
      now rewrite (upper_not_lower_or_digit _ Hu).
    + rewrite (sub_nomatch _ _ _ Em). f_equal.
      apply IH; [simpl in Hn; lia|].
      destruct tl as [|u tl']; [exact I|]. simpl.
      unfold Re.lower_upper in Em.
      destruct (is_lower_or_digit c && is_upper u); [discriminate | reflexivity].
Qed.

Lemma last_cons (tl : list ascii) : forall c p, last (c :: tl) p = last tl c.
Proof.
  induction tl as [|d tl IH]; intros c p; [reflexivity|].
  change (last (c :: d :: tl) p) with (last (d :: tl) p).
  now rewrite !IH.
Qed.

Lemma lower_upper_from_run run : forall p X,
  forallb is_lower run = true ->
  lower_upper_from (Some p) (run ++ X) = run ++ lower_upper_from (Some (last run p)) X.
Proof.
  induction run as [|c tl IH]; intros p X Hr; [reflexivity|].
  simpl in Hr. apply andb_true_iff in Hr. destruct Hr as [Hc Ht].
  rewrite last_cons.
  change ((c :: tl) ++ X) with (c :: (tl ++ X)).
  simpl lower_upper_from. rewrite (lower_not_upper _ Hc), andb_false_r.
  simpl app. f_equal. now rewrite IH by exact Ht.
Qed.

Lemma snake_spec_from_run run : forall p X,
  forallb is_lower run = true ->
  snake_spec_from (Some p) (run ++ X) = run ++ snake_spec_from (Some (last run p)) X.
Proof.
  induction run as [|c tl IH]; intros p X Hr; [reflexivity|].
  simpl in Hr. apply andb_true_iff in Hr. destruct Hr as [Hc Ht].
  rewrite last_cons.
  change ((c :: tl) ++ X) with (c :: (tl ++ X)).
  simpl snake_spec_from. unfold underscore_between.
  rewrite (lower_not_upper _ Hc). simpl.
  rewrite (lower_char_id _ (lower_not_upper _ Hc)). f_equal.
  now rewrite IH by exact Ht.
Qed.

Lemma last_lower run : forall p,
  is_lower p = true -> forallb is_lower run = true -> is_lower (last run p) = true.
Proof.
  induction run as [|c tl IH]; intros p Hp Hr; [exact Hp|].
  simpl in Hr. apply andb_true_iff in Hr. destruct Hr as [Hc Ht].
  rewrite last_cons. apply IH; assumption.
Qed.

Lemma lower_app a b : lower (a ++ b) = lower a ++ lower b.
Proof. apply map_app. Qed.

Lemma lower_run run : forallb is_lower run = true -> lower run = run.
Proof.
  induction run as [|c tl IH]; intros Hr; [reflexivity|].
  simpl in Hr. apply andb_true_iff in Hr. destruct Hr as [Hc Ht].
  simpl. now rewrite (lower_char_id _ (lower_not_upper _ Hc)), IH.
Qed.

Lemma lower_sep (b : bool) :
  lower (if b then [underscore] else []) = if b then [underscore] else [].
Proof. destruct b; reflexivity. Qed.

Lemma lower_upper_from_word prev c u l run X :
  is_upper u = true -> is_lower l = true -> forallb is_lower run = true ->
  lower_upper_from prev (c :: underscore :: u :: l :: run ++ X) =
  (if sep2 prev c then [underscore] else []) ++
  c :: underscore :: u :: l :: run ++ lower_upper_from (Some (last run l)) X.
Proof.
  intros Hu Hl Hrun.
  change (lower_upper_from prev (c :: underscore :: u :: l :: run ++ X))
    with ((if sep2 prev c then [underscore] else []) ++
          c :: (if sep2 (Some c) underscore then [underscore] else []) ++
          underscore :: (if sep2 (Some underscore) u then [underscore] else []) ++
          u :: (if sep2 (Some u) l then [underscore] else []) ++
          l :: lower_upper_from (Some l) (run ++ X)).
  replace (sep2 (Some c) underscore) with false
    by (unfold sep2; now rewrite andb_false_r).
  replace (sep2 (Some underscore) u) with false by reflexivity.
  replace (sep2 (Some u) l) with false
    by (unfold sep2; now rewrite (lower_not_upper _ Hl), andb_false_r).
  simpl app. now rewrite lower_upper_from_run.
Qed.

Lemma snake_spec_from_word prev c u l run R :
  is_upper u = true -> is_lower l = true -> forallb is_lower run = true ->
  snake_spec_from prev (c :: u :: l :: run ++ R) =
  (if sep2 prev c then [underscore] else []) ++
  lower_char c :: underscore :: lower_char u :: l :: run ++
  snake_spec_from (Some (last run l)) R.
Proof.
  intros Hu Hl Hrun.
  change (snake_spec_from prev (c :: u :: l :: run ++ R))
    with ((if match prev with
               | Some p => underscore_between p c (Some u)
               | None => false
               end then [underscore] else []) ++
          lower_char c ::
          (if underscore_between c u (Some l) then [underscore] else []) ++
          lower_char u ::
          (if underscore_between u l (hd_error (run ++ R)) then [underscore] else []) ++
          lower_char l :: snake_spec_from (Some l) (run ++ R)).
  replace (underscore_between c u (Some l)) with true
    by (unfold underscore_between; now rewrite Hu, Hl, orb_true_r).
  replace (underscore_between u l (hd_error (run ++ R))) with false
    by (unfold underscore_between; now rewrite (lower_not_upper _ Hl)).
  rewrite (lower_char_id l (lower_not_upper _ Hl)).
  rewrite snake_spec_from_run by exact Hrun.
  simpl app. f_equal. destruct prev as [p|]; [|reflexivity].
  unfold underscore_between, sep2.
  now rewrite (upper_not_lower _ Hu), orb_false_r, andb_comm.
Qed.

Lemma two_passes n : forall s prev,
  List.length s <= n ->
  forallb is_dot s = true ->
  first_pass_done prev s ->
  lower (lower_upper_from prev (Re.sub Re.upper_word s)) = snake_spec_from prev s.
Proof.
  induction n as [|n IH]; intros s prev Hn Hdot Hdone.
  - destruct s; [reflexivity | simpl in Hn; lia].
  - destruct s as [|c tl]; [reflexivity|].
    simpl in Hdot. apply andb_true_iff in Hdot. destruct Hdot as [Hc Hdot].
    destruct (Re.upper_word (c :: tl)) as [[repl len]|] eqn:Em.
    + rewrite (sub_match _ _ _ _ _ Em).
      unfold Re.upper_word in Em.
      destruct tl as [|u [|l rest]]; try discriminate.
      destruct (is_dot c && is_upper u && is_lower l) eqn:Ec; [|discriminate].
      injection Em as <- <-.
      apply andb_true_iff in Ec. destruct Ec as [Ec Hl].
      apply andb_true_iff in Ec. destruct Ec as [_ Hu].
      cbn [Nat.pred Nat.add skipn].
      pose proof (span_skipn is_lower rest) as Hsplit.
      pose proof (span_all is_lower rest) as Hrun.
      remember (Re.span is_lower rest) as run eqn:Erun.
      remember (skipn (List.length run) rest) as rest' eqn:Erest.
      clear Erun Erest. subst rest.
      change ((c :: underscore :: u :: l :: run) ++ Re.sub Re.upper_word rest')
        with (c :: underscore :: u :: l :: run ++ Re.sub Re.upper_word rest').
      rewrite lower_upper_from_word, snake_spec_from_word by assumption.
      rewrite lower_app, lower_sep. f_equal.
      change (lower (c :: underscore :: u :: l :: run ++
                     lower_upper_from (Some (last run l)) (Re.sub Re.upper_word rest')))
        with (lower_char c :: underscore :: lower_char u :: lower_char l ::
              lower (run ++ lower_upper_from (Some (last run l)) (Re.sub Re.upper_word rest'))).
      rewrite (lower_char_id l (lower_not_upper _ Hl)).
      rewrite lower_app, (lower_run _ Hrun).
      do 5 f_equal.
      simpl in Hdot. rewrite !andb_true_iff in Hdot.
      destruct Hdot as (_ & _ & Hdot). rewrite forallb_app in Hdot.
      apply andb_true_iff in Hdot.
      apply IH.
      * simpl in Hn. rewrite length_app in Hn. lia.
      * apply Hdot.
      * unfold first_pass_done. destruct rest' as [|x [|y r]]; try exact I.
        intros _ _. apply lower_is_lower_or_digit, last_lower; assumption.
    + rewrite (sub_nomatch _ _ _ Em).
      simpl lower_upper_from. simpl snake_spec_from.
      rewrite lower_app, lower_sep.
      change (lower (c :: lower_upper_from (Some c) (Re.sub Re.upper_word tl)))
        with (lower_char c :: lower (lower_upper_from (Some c) (Re.sub Re.upper_word tl))).
      rewrite IH.
      * f_equal. destruct prev as [p|]; [|reflexivity].
        unfold sep2, underscore_between.
        destruct (is_upper c) eqn:Hu; [|now rewrite andb_false_r].
        destruct (is_lower_or_digit p) eqn:Hp; [reflexivity|].
        destruct tl as [|l rest]; [reflexivity|]. simpl.
        destruct (is_lower l) eqn:Hl; [|reflexivity].
        unfold first_pass_done in Hdone. rewrite Hdone in Hp by assumption.
        discriminate.
      * simpl in Hn. lia.
      * exact Hdot.
      * unfold first_pass_done. destruct tl as [|u [|l rest]]; try exact I.
        intros Hu Hl. unfold Re.upper_word in Em.
        rewrite Hc, Hu, Hl in Em. discriminate.
Qed.

(** C5. For every class name (a name without line feeds), the derived
    event type is the name with an underscore put between a lowercase letter
    or digit and the uppercase letter after it, and between the character
    before and an uppercase letter that starts a lowercase word, everything
    lowercased; [UserCreated] gives [user_created], [HTTPRequestLog] gives
    [http_request_log] and [A] gives [a]. *)
Theorem to_snake_case_rule (name : string) (H : one_line name = true) :
  _to_snake_case name = snake_spec name /\
  _to_snake_case "UserCreated" = "user_created"%string /\
  _to_snake_case "HTTPRequestLog" = "http_request_log"%string /\
  _to_snake_case "A" = "a"%string.
Proof.
  split; [|repeat split; reflexivity].
  unfold _to_snake_case, snake_spec. f_equal.
  rewrite (sub_lower_upper_from _ _ None (le_n _)).
  - apply (two_passes _ _ None (le_n _) H). exact I.
  - destruct (Re.sub Re.upper_word (chars name)); [exact I | reflexivity].
Qed.

Lemma to_snake_case_rule_witness :
  one_line "getHTTP2Response" = true /\
  _to_snake_case "getHTTP2Response" = snake_spec "getHTTP2Response".
Proof.
  split; [reflexivity|].
  apply (to_snake_case_rule "getHTTP2Response"). reflexivity.
Defined.

(** ** Conversion of a batch *)

Lemma convert_data_nil w : _convert_data [] w = (Return [], w).
Proof. reflexivity. Qed.

Lemma convert_data_cons event tl w :
  _convert_data (event :: tl) w =
  let w1 := set_tick (S (tick w)) w in
  match model_dump_json event with
  | Raise e => (Raise e, w1)
  | Return ctx =>
      match _convert_data tl w1 with
      | (Return r, w') =>
          (Return ((_to_snake_case (class_name event), clock w (tick w),
                    ENVIRONMENT (settings w), ctx) :: r), w')
      | (Raise e, w') => (Raise e, w')
      end
  end.
Proof.
  unfold _convert_data. cbn [for_each].
  unfold bind, timezone_now, gets, lift, ret. cbv zeta.
  destruct (model_dump_json event) as [ctx|e]; [|reflexivity].
  match goal with |- context [for_each ?f tl ?w1] =>
    destruct (for_each f tl w1) as [[r|e] w'] end; reflexivity.
Qed.

Lemma same_but_tick_refl w : same_but_tick w w.
Proof. split; [destruct w; reflexivity | lia]. Qed.

Lemma same_but_tick_step w w' :
  same_but_tick (set_tick (S (tick w)) w) w' -> same_but_tick w w'.
Proof.
  intros [E L]. split; [|simpl in L; lia].
  rewrite E at 1. reflexivity.
Qed.

(** Conversion reads the clock and nothing else changes, whatever its
    outcome. *)
Lemma convert_data_frame data : forall w,
  same_but_tick w (snd (_convert_data data w)).
Proof.
  induction data as [|event tl IH]; intros w.
  - apply same_but_tick_refl.
  - rewrite convert_data_cons. cbv zeta.
    destruct (model_dump_json event) as [ctx|e].
    + specialize (IH (set_tick (S (tick w)) w)).
      destruct (_convert_data tl (set_tick (S (tick w)) w)) as [[r|e] w'];
        apply same_but_tick_step; exact IH.
    + apply same_but_tick_step, same_but_tick_refl.
Qed.

(** A batch with a payload that cannot be encoded fails with the error of
    the first such payload. *)
Lemma convert_data_raises data : forall w event e,
  In event data -> model_dump_json event = Raise e ->
  exists e' event', In event' data /\ model_dump_json event' = Raise e' /\
                    fst (_convert_data data w) = Raise e'.
Proof.
  induction data as [|x tl IH]; intros w event e Hin Hbad; [contradiction|].
  rewrite convert_data_cons. cbv zeta.
  destruct (model_dump_json x) as [ctx|e0] eqn:Ex.
  - destruct Hin as [->|Hin]; [congruence|].
    destruct (IH (set_tick (S (tick w)) w) event e Hin Hbad)
      as (e' & event' & Hin' & Hbad' & Hfst).
    exists e', event'. split; [now right|]. split; [exact Hbad'|].
    destruct (_convert_data tl (set_tick (S (tick w)) w)) as [[r|e1] w'];
      simpl in *; congruence.
  - exists e0, x. split; [now left|]. split; [exact Ex | reflexivity].
Qed.

(** A batch whose payloads can all be encoded is converted. *)
Lemma convert_data_returns data : forall w,
  encodable data -> exists r, fst (_convert_data data w) = Return r /\
                              List.length r = List.length data.
Proof.
  induction data as [|x tl IH]; intros w Hok.
  - exists []. split; reflexivity.
  - inversion Hok as [|? ? [ctx Hx] Htl]; subst.
    rewrite convert_data_cons. cbv zeta. rewrite Hx.
    destruct (IH (set_tick (S (tick w)) w) Htl) as (r & Hr & Hlen).
    destruct (_convert_data tl (set_tick (S (tick w)) w)) as [[r'|e] w'];
      simpl in Hr; [|discriminate].
    injection Hr as ->. eexists. split; [reflexivity|]. simpl. now rewrite Hlen.
Qed.

(** C7. When a payload of the batch cannot be encoded, conversion fails with
    the serialization error of a payload of the batch, the error leaves
    [insert] of the outbox client and the scope the client was acquired in,
    and the outbox has no new row. *)
Theorem outbox_insert_serialization_error
    (data : list Model) (w : World) (event : Model) (e : exn)
    (Hin : In event data) (Hbad : model_dump_json event = Raise e) :
  exists e' event' w',
    In event' data /\ model_dump_json event' = Raise e' /\
    _convert_data data w = (Raise e', w') /\
    OutboxEventLogClient.insert data w = (Raise e', w') /\
    init OutboxEventLogClient_cls (fun es => insert es data) w = (Raise e', w') /\
    outbox w' = outbox w /\ next_pk w' = next_pk w.
Proof.
  destruct (convert_data_raises data w event e Hin Hbad)
    as (e' & event' & Hin' & Hbad' & Hfst).
  pose proof (convert_data_frame data w) as [Hw _].
  destruct (_convert_data data w) as [o w'] eqn:Ec. simpl in Hfst, Hw. subst o.
  exists e', event', w'.
  assert (Hins : OutboxEventLogClient.insert data w = (Raise e', w'))
    by (unfold OutboxEventLogClient.insert, bind; now rewrite Ec).
  repeat split; try assumption.
  - now rewrite Hw.
  - now rewrite Hw.
Qed.

Lemma outbox_insert_serialization_error_witness :
  let bad := {| class_name := "UserCreated";
                model_dump_json := Raise (SerializationError "email") |} in
  let good := {| class_name := "UserCreated"; model_dump_json := Return "{}" |} in
  let w := {| settings := {| ENVIRONMENT := "Local"; EVENT_SAVER_TYPE := "OUTBOX" |};
              clock := Z.of_nat; tick := 0; outbox := []; next_pk := 1;
              ch_table := []; ch_connect_fault := None; ch_insert_fault := None;
              ch_open := 0; logged := []; var_log := None;
              var_logs_to_send := None |} in
  exists e' event' w',
    In event' [good; bad] /\ model_dump_json event' = Raise e' /\
    _convert_data [good; bad] w = (Raise e', w') /\
    OutboxEventLogClient.insert [good; bad] w = (Raise e', w') /\
    init OutboxEventLogClient_cls (fun es => insert es [good; bad]) w = (Raise e', w') /\
    outbox w' = outbox w /\ next_pk w' = next_pk w.
Proof.
  intros bad good w.
  apply (outbox_insert_serialization_error [good; bad] w bad
           (SerializationError "email")).
  - right. left. reflexivity.
  - reflexivity.
Defined.

(** Two conversions of one batch, the second starting no earlier than the
    first on the same monotone clock and under the same settings. *)
Lemma convert_data_later data : forall wa wb,
  clock wb = clock wa -> settings wb = settings wa -> tick wa <= tick wb ->
  monotone (clock wa) ->
  match fst (_convert_data data wa), fst (_convert_data data wb) with
  | Return r1, Return r2 =>
      Forall2 (fun t1 t2 => type_of t1 = type_of t2 /\
                            context_of t1 = context_of t2 /\
                            (time_of t1 <= time_of t2)%Z) r1 r2
  | Raise e1, Raise e2 => e1 = e2
  | _, _ => False
  end.
Proof.
  induction data as [|event tl IH]; intros wa wb Hclock Hset Htick Hmono.
  - constructor.
  - rewrite !convert_data_cons. cbv zeta.
    destruct (model_dump_json event) as [ctx|e]; [|reflexivity].
    specialize (IH (set_tick (S (tick wa)) wa) (set_tick (S (tick wb)) wb)
                   Hclock Hset ltac:(simpl; lia) Hmono).
    destruct (_convert_data tl (set_tick (S (tick wa)) wa)) as [[r1|e1] wa'];
      destruct (_convert_data tl (set_tick (S (tick wb)) wb)) as [[r2|e2] wb'];
      simpl in IH |- *; try assumption.
    constructor; [|exact IH]. simpl. repeat split.
    rewrite Hclock. apply Hmono. exact Htick.
Qed.

(** C9. A batch converted twice in immediate succession: every record of the
    second conversion has the event type and the event context of the record
    at its place in the first, and a time that is not earlier, the clock
    being monotone; a batch that cannot be converted fails twice with the
    same error. *)
Theorem convert_data_twice (data : list Model) (w : World)
    (Hmono : monotone (clock w)) :
  match _convert_data data w with
  | (Return r1, w1) =>
      exists r2 w2, _convert_data data w1 = (Return r2, w2) /\
        Forall2 (fun t1 t2 => type_of t1 = type_of t2 /\
                              context_of t1 = context_of t2 /\
                              (time_of t1 <= time_of t2)%Z) r1 r2
  | (Raise e, w1) => fst (_convert_data data w1) = Raise e
  end.
Proof.
  pose proof (convert_data_frame data w) as [Hw Ht].
  destruct (_convert_data data w) as [o w1] eqn:E1. simpl in Hw, Ht.
  assert (Hc : clock w1 = clock w) by now rewrite Hw.
  assert (Hs : settings w1 = settings w) by now rewrite Hw.
  pose proof (convert_data_later data w w1 Hc Hs Ht Hmono) as H.
  rewrite E1 in H. simpl in H.
  destruct o as [r1|e1].
  - destruct (_convert_data data w1) as [[r2|e2] w2]; simpl in H; [|contradiction].
    exists r2, w2. split; [reflexivity | exact H].
  - destruct (_convert_data data w1) as [[r2|e2] w2]; simpl in H |- *;
      [contradiction | now subst].
Qed.

Lemma convert_data_twice_witness :
  let ev1 := {| class_name := "UserCreated"; model_dump_json := Return "{1}" |} in
  let ev2 := {| class_name := "HTTPRequestLog"; model_dump_json := Return "{2}" |} in
  let w := {| settings := {| ENVIRONMENT := "Local"; EVENT_SAVER_TYPE := "OUTBOX" |};
              clock := Z.of_nat; tick := 0; outbox := []; next_pk := 1;
              ch_table := []; ch_connect_fault := None; ch_insert_fault := None;
              ch_open := 0; logged := []; var_log := None;
              var_logs_to_send := None |} in
  monotone (clock w) /\
  match _convert_data [ev1; ev2] w with
  | (Return r1, w1) =>
      exists r2 w2, _convert_data [ev1; ev2] w1 = (Return r2, w2) /\
        Forall2 (fun t1 t2 => type_of t1 = type_of t2 /\
                              context_of t1 = context_of t2 /\
                              (time_of t1 <= time_of t2)%Z) r1 r2
  | (Raise e, w1) => fst (_convert_data [ev1; ev2] w1) = Raise e
  end.
Proof.
  intros ev1 ev2 w.
  assert (Hm : monotone (clock w)) by (intros i j Hij; simpl; lia).
  split; [exact Hm|].
  exact (convert_data_twice [ev1; ev2] w Hm).
Defined.

(** ** Selection of the backend *)

Lemma eqb_name (a b : string) : String.eqb a b = false -> a <> b.
Proof. intros H E. apply String.eqb_eq in E. congruence. Qed.

(** C8. Selection by name knows the three names of the discard, the
    direct-write and the outbox-write client and answers the class whose
    [init] is the scoped acquisition; any other name raises the
    configuration error at selection, and the insertion step of a use case
    then fails with it before anything is converted, written or opened: the
    world is as the business operation left it. *)
Theorem get_event_saver_selection (name : string) :
  get_event_saver "STUB" = Return StubEventLogClient_cls /\
  get_event_saver "CLICKHOUSE" = Return ClickhouseEventLogClient_cls /\
  get_event_saver "OUTBOX" = Return OutboxEventLogClient_cls /\
  match get_event_saver name with
  | Return cls =>
      (name = "STUB"%string /\ cls = StubEventLogClient_cls) \/
      (name = "CLICKHOUSE"%string /\ cls = ClickhouseEventLogClient_cls) \/
      (name = "OUTBOX"%string /\ cls = OutboxEventLogClient_cls)
  | Raise e =>
      name <> "STUB"%string /\ name <> "CLICKHOUSE"%string /\
      name <> "OUTBOX"%string /\
      e = ValueError (String.append "Unknown event saver type: " name) /\
      (forall events w,
         EVENT_SAVER_TYPE (settings w) = name ->
         save_event_logs events w = (Raise e, w)) /\
      (forall Req R (self : UseCase Req R) request w response r w1,
         EVENT_SAVER_TYPE (settings w1) = name ->
         is_save_event_logs self = true ->
         _execute self request w = (Return response, w1) ->
         result response = Some r ->
         execute self request w = (Raise e, w1))
  end.
Proof.
  repeat (split; [reflexivity|]).
  unfold get_event_saver.
  destruct (String.eqb name "STUB") eqn:E1;
    [apply String.eqb_eq in E1; now left|].
  destruct (String.eqb name "CLICKHOUSE") eqn:E2;
    [apply String.eqb_eq in E2; right; now left|].
  destruct (String.eqb name "OUTBOX") eqn:E3;
    [apply String.eqb_eq in E3; right; now right|].
  assert (Hsave : forall events w,
             EVENT_SAVER_TYPE (settings w) = name ->
             save_event_logs events w =
             (Raise (ValueError (String.append "Unknown event saver type: " name)), w)).
  { intros events w Hname.
    unfold save_event_logs, bind, gets, lift, get_event_saver.
    now rewrite Hname, E1, E2, E3. }
  repeat split; try (apply eqb_name; assumption).
  - exact Hsave.
  - intros Req R self request w response r w1 Hname Hflag Hexec Hres.
    unfold execute, bind. rewrite Hexec, Hflag, Hres.
    now rewrite (Hsave _ w1 Hname).
Qed.

(** The names of the specification's configuration surface that the code
    does not know. *)
Example get_event_saver_other_names :
  get_event_saver "DISCARD" = Raise (ValueError "Unknown event saver type: DISCARD") /\
  get_event_saver "DIRECT" = Raise (ValueError "Unknown event saver type: DIRECT") /\
  get_event_saver "stub" = Raise (ValueError "Unknown event saver type: stub").
Proof. repeat split; reflexivity. Qed.

(** ** Retention *)

(** C6. The retention job deletes the rows that are sent and dated strictly
    before thirty days ago, and no other: what is left is the table without
    those rows, every other row as it was and in its place; the status tells
    how many rows went. *)
Theorem delete_sent_logs_exact (w : World) :
  let now := clock w (tick w) in
  let expired r :=
    is_sent r = true /\ (event_date_time r < now - 2592000000000)%Z in
  exists n w',
    delete_sent_logs w =
      (Return (String.append "Deleted " (String.append (show n) " sent logs.")), w') /\
    n + List.length (outbox w') = List.length (outbox w) /\
    (forall r, In r (outbox w') <-> In r (outbox w) /\ ~ expired r) /\
    outbox w' =
      filter (fun r => negb (is_sent r && Z.ltb (event_date_time r) (now - 2592000000000)))
             (outbox w) /\
    filter unsent_logs (outbox w') = filter unsent_logs (outbox w) /\
    ch_table w' = ch_table w.
Proof.
  intros now expired.
  set (q := fun r => is_sent r && Z.ltb (event_date_time r) (now - 2592000000000)).
  exists (List.length (filter q (outbox w))),
         (set_outbox (filter (fun r => negb (q r)) (outbox w)) (next_pk w)
                     (set_tick (S (tick w)) w)).
  split; [reflexivity|]. simpl outbox.
  split; [|split; [|split; [reflexivity|split; [|reflexivity]]]].
  - induction (outbox w) as [|r tl IH]; [reflexivity|].
    simpl. destruct (q r); simpl; lia.
  - intros r. rewrite filter_In. unfold q, expired.
    rewrite negb_true_iff, andb_false_iff.
    split; intros [Hin H]; (split; [exact Hin|]).
    + intros [Hs Hd]. apply Z.ltb_lt in Hd. destruct H; congruence.
    + destruct (is_sent r); [|now left]. right. apply Z.ltb_ge.
      destruct (Z.lt_ge_cases (event_date_time r) (now - 2592000000000));
        [exfalso; apply H; now split | assumption].
  - induction (outbox w) as [|r tl IH]; [reflexivity|].
    unfold q, unsent_logs in *. simpl.
    destruct (is_sent r) eqn:Es; simpl.
    + destruct (Z.ltb (event_date_time r) (now - 2592000000000)); simpl;
        rewrite ?Es; simpl; exact IH.
    + rewrite Es. simpl. now rewrite IH.
Qed.

(** The scenario of the specification: a sent row dated 31 days ago goes, a
    sent row dated one day ago and an unsent row dated 31 days ago stay. *)
Example delete_sent_logs_scenario :
  let day := 86400000000%Z in
  let row n t s := {| pk := n; event_type := "user_created"; event_date_time := t;
                      environment := "Local"; event_context := "{}"; is_sent := s |} in
  let w := {| settings := {| ENVIRONMENT := "Local"; EVENT_SAVER_TYPE := "OUTBOX" |};
              clock := fun _ => (100 * day)%Z; tick := 0;
              outbox := [row 1 (69 * day)%Z true; row 2 (99 * day)%Z true;
                         row 3 (69 * day)%Z false];
              next_pk := 4;
              ch_table := []; ch_connect_fault := None; ch_insert_fault := None;
              ch_open := 0; logged := []; var_log := None;
              var_logs_to_send := None |} in
  fst (delete_sent_logs w) = Return "Deleted 1 sent logs."%string /\
  outbox (snd (delete_sent_logs w)) =
    [row 2 (99 * day)%Z true; row 3 (69 * day)%Z false].
Proof. split; reflexivity. Qed.

(** ** The direct-write client *)

(** C10. In the scope acquired from the direct-write client, whatever the
    body does, the [with] statement completes without an exception: an
    exception of the body is logged as an error and goes no further, and the
    connection is closed after a body that returned as after a body that
    raised. *)
Theorem clickhouse_init_scope
    (body : Driver.Client -> M unit) (w : World)
    (Hconnect : ch_connect_fault w = None) :
  let client := {| Driver.conn := ch_open w |} in
  let opened := set_ch_open (S (ch_open w)) w in
  exists w',
    ClickhouseEventLogClient.init body w = (Return tt, w') /\
    ch_open w' = pred (ch_open (snd (body client opened))) /\
    outbox w' = outbox (snd (body client opened)) /\
    ch_table w' = ch_table (snd (body client opened)) /\
    match fst (body client opened) with
    | Return _ => logged w' = logged (snd (body client opened))
    | Raise e =>
        logged w' = logged (snd (body client opened)) ++
                    [{| level := ERROR;
                        event := "error while executing clickhouse query";
                        error := str_exn e |}]
    end.
Proof.
  intros client opened.
  unfold ClickhouseEventLogClient.init, bind, Driver.get_client.
  rewrite Hconnect. fold client opened.
  unfold try_finally, try_except.
  destruct (body client opened) as [[[]|e] wb]; eexists; repeat split.
Qed.

Lemma clickhouse_init_scope_witness :
  let w := {| settings := {| ENVIRONMENT := "Local"; EVENT_SAVER_TYPE := "CLICKHOUSE" |};
              clock := Z.of_nat; tick := 0; outbox := []; next_pk := 1;
              ch_table := []; ch_connect_fault := None; ch_insert_fault := None;
              ch_open := 0; logged := []; var_log := None;
              var_logs_to_send := None |} in
  let body := fun _ : Driver.Client => raise (A := unit) (OtherException "boom") in
  exists w',
    ClickhouseEventLogClient.init body w = (Return tt, w') /\
    ch_open w' = 0 /\
    logged w' = [{| level := ERROR;
                    event := "error while executing clickhouse query";
                    error := "boom" |}].
Proof.
  intros w body.
  destruct (clickhouse_init_scope body w eq_refl) as (w' & Hrun & Hopen & _ & _ & Hlog).
  exists w'. split; [exact Hrun|]. split; [exact Hopen | exact Hlog].
Defined.

(** [client.insert] of the driver when the store refuses. *)
Lemma driver_insert_fault c data w e :
  ch_insert_fault w = Some e -> Driver.insert c data w = (Raise e, w).
Proof. unfold Driver.insert. now intros ->. Qed.

(** A store that refuses the write with a [DatabaseError]: the error is
    caught and logged. *)
Lemma clickhouse_insert_refused self data w e :
  ch_insert_fault w = Some e -> is_DatabaseError e = true -> encodable data ->
  exists w',
    ClickhouseEventLogClient.insert self data w = (Return tt, w') /\
    logged w' = logged w ++ [{| level := ERROR;
                                event := "unable to insert data to clickhouse";
                                error := str_exn e |}] /\
    outbox w' = outbox w /\ ch_table w' = ch_table w /\ ch_open w' = ch_open w.
Proof.
  intros Hfault Hstore Hdata.
  destruct (convert_data_returns data w Hdata) as (r & Hr & _).
  pose proof (convert_data_frame data w) as [Hw _].
  destruct (_convert_data data w) as [o w1] eqn:Ec. simpl in Hr, Hw. subst o.
  assert (Hf1 : ch_insert_fault w1 = Some e) by (rewrite Hw; exact Hfault).
  unfold ClickhouseEventLogClient.insert, try_except, bind.
  rewrite Ec, (driver_insert_fault _ _ _ _ Hf1), Hstore.
  eexists. split; [reflexivity|]. simpl. rewrite Hw. repeat split.
Qed.

(** A store that accepts the write: the converted records are appended. *)
Lemma clickhouse_insert_accepted self data w :
  ch_insert_fault w = None -> encodable data ->
  exists r w',
    fst (_convert_data data w) = Return r /\
    ClickhouseEventLogClient.insert self data w = (Return tt, w') /\
    ch_table w' = ch_table w ++ map tuple_of r /\
    logged w' = logged w /\ outbox w' = outbox w.
Proof.
  intros Hfault Hdata.
  destruct (convert_data_returns data w Hdata) as (r & Hr & _).
  pose proof (convert_data_frame data w) as [Hw _].
  destruct (_convert_data data w) as [o w1] eqn:Ec. simpl in Hr, Hw. subst o.
  assert (Hf1 : ch_insert_fault w1 = None) by (rewrite Hw; exact Hfault).
  exists r.
  unfold ClickhouseEventLogClient.insert, try_except, bind.
  rewrite Ec. unfold Driver.insert. rewrite Hf1. unfold bind.
  assert (Hrows : forall w2, for_each Driver.as_sequence (map (fun t => Tuple (tuple_of t)) r) w2
                             = (Return (map tuple_of r), w2)).
  { clear. induction r as [|t tl IH]; intros w2; [reflexivity|].
    simpl. unfold bind, ret. simpl. now rewrite IH. }
  rewrite Hrows. eexists. split; [reflexivity|]. split; [reflexivity|].
  simpl. rewrite Hw. repeat split.
Qed.

(** C4. [insert] of the direct-write client, for every batch that converts
    and every client, whether the store accepts the write or fails with its
    error: the call returns normally and the outbox is as before; on a
    failure the error is logged and the store's table is as before. *)
Theorem clickhouse_insert_never_raises
    (self : Driver.Client) (data : list Model) (w : World)
    (Hstore : forall e, ch_insert_fault w = Some e -> is_DatabaseError e = true)
    (Hdata : encodable data) :
  exists w',
    ClickhouseEventLogClient.insert self data w = (Return tt, w') /\
    outbox w' = outbox w /\
    match ch_insert_fault w with
    | Some e =>
        ch_table w' = ch_table w /\
        logged w' = logged w ++ [{| level := ERROR;
                                    event := "unable to insert data to clickhouse";
                                    error := str_exn e |}]
    | None =>
        logged w' = logged w /\
        exists r, fst (_convert_data data w) = Return r /\
                  ch_table w' = ch_table w ++ map tuple_of r
    end.
Proof.
  destruct (ch_insert_fault w) as [e|] eqn:Hfault.
  - destruct (clickhouse_insert_refused self data w e Hfault (Hstore e eq_refl) Hdata)
      as (w' & Hrun & Hlog & Hout & Htable & _).
    exists w'. repeat split; assumption.
  - destruct (clickhouse_insert_accepted self data w Hfault Hdata)
      as (r & w' & Hr & Hrun & Htable & Hlog & Hout).
    exists w'. repeat split; try assumption. exists r. now split.
Qed.

Lemma clickhouse_insert_never_raises_witness :
  let ev := {| class_name := "UserCreated"; model_dump_json := Return "{}" |} in
  let w := {| settings := {| ENVIRONMENT := "Local"; EVENT_SAVER_TYPE := "CLICKHOUSE" |};
              clock := Z.of_nat; tick := 0; outbox := []; next_pk := 1;
              ch_table := []; ch_connect_fault := None;
              ch_insert_fault := Some (DatabaseError "timeout");
              ch_open := 1; logged := []; var_log := None;
              var_logs_to_send := None |} in
  exists w',
    ClickhouseEventLogClient.insert {| Driver.conn := 0 |} [ev] w = (Return tt, w') /\
    outbox w' = [] /\ ch_table w' = [] /\
    logged w' = [{| level := ERROR;
                    event := "unable to insert data to clickhouse";
                    error := "timeout" |}].
Proof.
  intros ev w.
  assert (Hstore : forall e, ch_insert_fault w = Some e -> is_DatabaseError e = true).
  { intros e He. injection He as <-. reflexivity. }
  assert (Hdata : encodable [ev]).
  { constructor; [exists "{}"%string; reflexivity | constructor]. }
  destruct (clickhouse_insert_never_raises {| Driver.conn := 0 |} [ev] w Hstore Hdata)
    as (w' & Hrun & Hout & Htable & Hlog).
  exists w'. repeat split; assumption.
Defined.

(** The result of a use case under the direct-write backend is the result of
    its business operation, whatever the store does during the insertion. *)
Lemma execute_direct_write Req R (self : UseCase Req R) request w response w1 :
  _execute self request w = (Return response, w1) ->
  EVENT_SAVER_TYPE (settings w1) = "CLICKHOUSE"%string ->
  ch_connect_fault w1 = None ->
  exists w', execute self request w = (Return response, w').
Proof.
  intros Hexec Hname Hconnect.
  unfold execute, bind. rewrite Hexec.
  destruct (is_save_event_logs self); [|eexists; reflexivity].
  destruct (result response) as [r|]; [|eexists; reflexivity].
  unfold save_event_logs, bind, gets, lift. rewrite Hname.
  cbn [get_event_saver String.eqb Ascii.eqb Bool.eqb].
  unfold init, ClickhouseEventLogClient.init, bind, Driver.get_client.
  rewrite Hconnect. unfold try_finally, try_except.
  match goal with |- context [insert ?es ?d ?w0] =>
    destruct (insert es d w0) as [[[]|e] wb] end;
    eexists; reflexivity.
Qed.

(** ** The reconciliation job *)

Lemma comprehension_rounds cols rows : forall w,
  for_each (fun log => modify (set_var_log (Some log)) ;;; ret (Genexpr cols)) rows w =
  (Return (map (fun _ => Genexpr cols) rows),
   set_var_log (bound_after rows (var_log w)) w).
Proof.
  induction rows as [|r tl IH]; intros w.
  - destruct w; reflexivity.
  - cbn [for_each]. unfold bind at 1. unfold bind at 1. unfold modify at 1.
    unfold ret at 1. unfold bind at 1. rewrite IH. reflexivity.
Qed.

Lemma logs_comprehension_run w :
  logs_comprehension ClickhouseEventLogClient.EVENT_LOG_COLUMNS w =
  (Return (generators (filter unsent_logs (outbox w))),
   set_var_log (bound_after (filter unsent_logs (outbox w)) (var_log w)) w).
Proof.
  unfold logs_comprehension. unfold bind at 1. unfold ORM.fetch, gets.
  now rewrite comprehension_rounds.
Qed.

(** The rows of the job are generators: the client refuses the first. *)
Lemma sequence_generators rows w :
  rows <> [] ->
  for_each Driver.as_sequence (generators rows) w = (Raise generator_row_error, w).
Proof.
  destruct rows as [|r tl]; [contradiction|]. intros _. reflexivity.
Qed.

(** The [with] statement of the job on a store that is up: the client
    raises on the rows before anything is sent; the error is none of the
    store's, so it leaves [insert_raw], and [init] logs it. *)
Lemma flush_rejected w :
  ch_connect_fault w = None -> ch_insert_fault w = None ->
  filter unsent_logs (outbox w) <> [] ->
  let rows := filter unsent_logs (outbox w) in
  exists w',
    flush_unsent_logs w = (Return tt, w') /\
    outbox w' = outbox w /\ next_pk w' = next_pk w /\
    var_logs_to_send w' = Some (generators rows) /\
    ch_table w' = ch_table w /\
    logged w' = logged w ++ [{| level := ERROR;
                                event := "error while executing clickhouse query";
                                error := str_exn generator_row_error |}] /\
    ch_open w' = ch_open w.
Proof.
  intros Hconnect Hfault Hrows rows.
  unfold flush_unsent_logs, ClickhouseEventLogClient.init.
  unfold bind at 1. unfold Driver.get_client. rewrite Hconnect.
  unfold try_finally, try_except.
  unfold bind at 1. rewrite logs_comprehension_run.
  unfold bind at 1. unfold modify at 1.
  unfold ClickhouseEventLogClient.insert_raw, try_except, Driver.insert.
  cbn [ch_insert_fault set_var_logs_to_send set_var_log set_ch_open outbox var_log].
  rewrite Hfault. fold rows.
  unfold bind at 1.
  rewrite (sequence_generators rows _ Hrows).
  eexists. split; [reflexivity|]. repeat split.
Qed.

(** The [with] statement of the job on a store that refuses the write with
    any exception [e]: the exception is logged, by [insert_raw] when it is a
    [DatabaseError] and by [init] otherwise, and goes no further. *)
Lemma flush_refused w e :
  ch_connect_fault w = None -> ch_insert_fault w = Some e ->
  let rows := filter unsent_logs (outbox w) in
  exists w' ev,
    flush_unsent_logs w = (Return tt, w') /\
    outbox w' = outbox w /\ next_pk w' = next_pk w /\
    var_logs_to_send w' = Some (generators rows) /\
    ch_table w' = ch_table w /\
    logged w' = logged w ++ [{| level := ERROR; event := ev; error := str_exn e |}] /\
    ch_open w' = ch_open w.
Proof.
  intros Hconnect Hfault rows.
  unfold flush_unsent_logs, ClickhouseEventLogClient.init.
  unfold bind at 1. unfold Driver.get_client. rewrite Hconnect.
  unfold try_finally, try_except.
  unfold bind at 1. rewrite logs_comprehension_run.
  unfold bind at 1. unfold modify at 1.
  unfold ClickhouseEventLogClient.insert_raw, try_except, Driver.insert.
  cbn [ch_insert_fault set_var_logs_to_send set_var_log set_ch_open outbox var_log].
  rewrite Hfault. fold rows.
  destruct (is_DatabaseError e); eexists; eexists; split; try reflexivity;
    repeat split.
Qed.

Lemma mark_and_report_run w l :
  var_logs_to_send w = Some l ->
  mark_and_report w =
  (Return (success_status (List.length l)),
   set_outbox (all_marked (outbox w)) (next_pk w) w).
Proof.
  intros H. unfold mark_and_report, bind, ORM.update_is_sent, gets.
  cbn [var_logs_to_send set_outbox]. now rewrite H.
Qed.

Lemma exists_unsent rows :
  existsb unsent_logs rows = true <-> filter unsent_logs rows <> [].
Proof.
  induction rows as [|r tl IH]; simpl.
  - split; [discriminate | congruence].
  - destruct (unsent_logs r); simpl; [split; [discriminate | reflexivity] | exact IH].
Qed.

Lemma all_marked_sent rows : forallb is_sent (all_marked rows) = true.
Proof.
  induction rows as [|r tl IH]; [reflexivity|].
  unfold all_marked in *. simpl. rewrite IH, andb_true_r.
  unfold unsent_logs. destruct (is_sent r) eqn:E; [exact E | reflexivity].
Qed.

Lemma generators_length rows : List.length (generators rows) = List.length rows.
Proof. apply length_map. Qed.

(** The whole run when something is unsent, in terms of its [with]
    statement. *)
Lemma send_unsent_logs_run w :
  existsb unsent_logs (outbox w) = true ->
  send_unsent_logs_to_clickhouse w =
  (flush_unsent_logs ;;; mark_and_report)
    (set_var_logs_to_send None (set_var_log None w)).
Proof.
  intros H. unfold send_unsent_logs_to_clickhouse.
  unfold bind at 1. unfold modify at 1.
  unfold bind at 1. unfold ORM.exists_, gets.
  cbn [outbox set_var_logs_to_send set_var_log]. now rewrite H.
Qed.

(** C1 (the code does otherwise). A run whose batch write fails, with
    whatever exception: nothing is raised to the invoker and the store's
    table is as before; but the run goes on to mark every unsent row sent and
    returns the status of a successful run. *)
Theorem failed_flush_marks_sent (w : World) (e : exn)
    (Hconnect : ch_connect_fault w = None)
    (Hfault : ch_insert_fault w = Some e)
    (Hunsent : existsb unsent_logs (outbox w) = true) :
  exists w' ev,
    send_unsent_logs_to_clickhouse w =
      (Return (success_status (List.length (filter unsent_logs (outbox w)))), w') /\
    outbox w' = all_marked (outbox w) /\
    forallb is_sent (outbox w') = true /\
    ch_table w' = ch_table w /\
    logged w' = logged w ++ [{| level := ERROR; event := ev; error := str_exn e |}].
Proof.
  rewrite (send_unsent_logs_run w Hunsent).
  destruct (flush_refused (set_var_logs_to_send None (set_var_log None w)) e
              Hconnect Hfault)
    as (w1 & ev & Hrun & Hout & Hpk & Hvar & Htable & Hlog & _).
  cbn [outbox ch_table logged set_var_logs_to_send set_var_log] in *.
  unfold bind. rewrite Hrun, (mark_and_report_run w1 _ Hvar).
  rewrite generators_length.
  eexists. exists ev. split; [reflexivity|].
  cbn [outbox ch_table logged set_outbox]. rewrite Hout.
  repeat split; try assumption. apply all_marked_sent.
Qed.

Lemma failed_flush_marks_sent_witness :
  let row := {| pk := 1; event_type := "user_created"; event_date_time := 5;
                environment := "Local"; event_context := "{}"; is_sent := false |} in
  let w := {| settings := {| ENVIRONMENT := "Local"; EVENT_SAVER_TYPE := "OUTBOX" |};
              clock := Z.of_nat; tick := 0; outbox := [row]; next_pk := 2;
              ch_table := []; ch_connect_fault := None;
              ch_insert_fault := Some (DatabaseError "timeout");
              ch_open := 0; logged := []; var_log := None;
              var_logs_to_send := None |} in
  exists w' ev,
    send_unsent_logs_to_clickhouse w =
      (Return "Successfully sent 1 logs to Clickhouse."%string, w') /\
    outbox w' = [ORM.with_is_sent true row] /\
    forallb is_sent (outbox w') = true /\
    ch_table w' = [] /\
    logged w' = [{| level := ERROR; event := ev; error := "timeout" |}].
Proof.
  intros row w.
  exact (failed_flush_marks_sent w (DatabaseError "timeout") eq_refl eq_refl eq_refl).
Defined.

(** C2 (the code does otherwise). Two runs of the job on an outbox with one
    unsent row [a].  In the first the store refuses the write: [a] is marked
    sent although no write was confirmed.  In the second the store is up,
    and another process adds the row [b] after the job has read the unsent
    rows and left its [with] statement: the job marks [b] sent too, a row it
    never read; and no write was confirmed in this run either, the client
    having raised on the rows it was handed, so nothing reached the store. *)
Theorem mark_sent_beyond_confirmed_claim :
  let a := {| pk := 1; event_type := "user_created"; event_date_time := 5;
              environment := "Local"; event_context := "{a}"; is_sent := false |} in
  let b := {| pk := 2; event_type := "user_created"; event_date_time := 0;
              environment := "Local"; event_context := "{b}"; is_sent := false |} in
  let event_b := {| class_name := "UserCreated"; model_dump_json := Return "{b}" |} in
  let world fault :=
    {| settings := {| ENVIRONMENT := "Local"; EVENT_SAVER_TYPE := "OUTBOX" |};
       clock := Z.of_nat; tick := 0; outbox := [a]; next_pk := 2;
       ch_table := []; ch_connect_fault := None; ch_insert_fault := fault;
       ch_open := 0; logged := []; var_log := None;
       var_logs_to_send := None |} in
  let refused := send_unsent_logs_to_clickhouse (world (Some (DatabaseError "timeout"))) in
  let raced := send_unsent_logs_interleaved (OutboxEventLogClient.insert [event_b])
                 (world None) in
  fst refused = Return "Successfully sent 1 logs to Clickhouse."%string /\
  outbox (snd refused) = [ORM.with_is_sent true a] /\
  ch_table (snd refused) = [] /\
  fst raced = Return "Successfully sent 1 logs to Clickhouse."%string /\
  outbox (snd raced) = [ORM.with_is_sent true a; ORM.with_is_sent true b] /\
  ch_table (snd raced) = [] /\
  logged (snd raced) =
    [{| level := ERROR; event := "error while executing clickhouse query";
        error := "object of type 'generator' has no len()" |}].
Proof. repeat split; reflexivity. Qed.

(** What holds of the flag on the code: [insert] of the outbox client adds
    unsent rows after the rows there are and changes none of these. *)
Lemma number_unsent records : forall n,
  Forall (fun r => is_sent r = false) records ->
  filter unsent_logs (ORM.number n records) = ORM.number n records.
Proof.
  induction records as [|r tl IH]; intros n H; [reflexivity|].
  inversion H as [|? ? Hr Htl]; subst. simpl.
  unfold unsent_logs at 1. simpl. rewrite Hr. simpl. now rewrite IH.
Qed.

Lemma outbox_records_unsent converted :
  Forall (fun r => is_sent r = false) (outbox_records converted).
Proof.
  induction converted as [|[[[et dt] env] ctx] tl IH]; constructor;
    [reflexivity | exact IH].
Qed.

Lemma number_length records : forall n,
  List.length (ORM.number n records) = List.length records.
Proof.
  induction records as [|r tl IH]; intros n; [reflexivity|].
  simpl. now rewrite IH.
Qed.

(** The records made of a batch within bounds fit their columns. *)
Lemma convert_data_fits data : forall w r w0,
  _convert_data data w = (Return r, w0) -> within_bounds w data ->
  forallb fits_columns (outbox_records r) = true.
Proof.
  induction data as [|x tl IH]; intros w r w0 Hc [Henv Hall].
  - rewrite convert_data_nil in Hc. injection Hc as <- _. reflexivity.
  - rewrite convert_data_cons in Hc. cbv zeta in Hc.
    inversion Hall as [|? ? Hx Htl]; subst.
    destruct (model_dump_json x) as [ctx|e]; [|discriminate].
    destruct (_convert_data tl (set_tick (S (tick w)) w)) as [[r'|e] w'] eqn:Etl;
      [|discriminate].
    injection Hc as <- _.
    specialize (IH (set_tick (S (tick w)) w) r' w' Etl (conj Henv Htl)).
    cbn [outbox_records map forallb]. fold (outbox_records r'). rewrite IH.
    unfold fits_columns. cbn [event_type environment].
    apply andb_true_iff. split; [|reflexivity].
    apply andb_true_iff. split; apply Nat.leb_le; assumption.
Qed.

Lemma outbox_insert_run data w :
  encodable data -> within_bounds w data ->
  exists converted w0 w1,
    _convert_data data w = (Return converted, w0) /\
    List.length converted = List.length data /\
    OutboxEventLogClient.insert data w = (Return tt, w1) /\
    w1 = set_outbox (outbox w ++ ORM.number (next_pk w) (outbox_records converted))
                    (next_pk w + List.length converted) w0.
Proof.
  intros Hdata Hfit.
  destruct (convert_data_returns data w Hdata) as (r & Hr & Hlen).
  pose proof (convert_data_frame data w) as [Hw _].
  destruct (_convert_data data w) as [o w0] eqn:Ec. simpl in Hr, Hw. subst o.
  exists r, w0. eexists. split; [reflexivity|]. split; [exact Hlen|].
  unfold OutboxEventLogClient.insert, bind. rewrite Ec.
  unfold OutboxEventLogClient._save_to_outbox, ORM.bulk_create.
  fold (outbox_records r). rewrite (convert_data_fits data w r w0 Ec Hfit).
  unfold modify.
  replace (List.length (outbox_records r)) with (List.length r)
    by (unfold outbox_records; now rewrite length_map).
  split; [reflexivity|]. rewrite Hw. reflexivity.
Qed.

Lemma all_marked_unsent rows : filter unsent_logs (all_marked rows) = [].
Proof.
  induction rows as [|r tl IH]; [reflexivity|].
  unfold all_marked in *. simpl.
  unfold unsent_logs at 1 2. destruct (is_sent r) eqn:E; simpl.
  - rewrite E. simpl. exact IH.
  - exact IH.
Qed.

Lemma all_marked_persisted rows : map persisted (all_marked rows) = map persisted rows.
Proof.
  induction rows as [|r tl IH]; [reflexivity|].
  unfold all_marked in *. simpl. rewrite IH.
  destruct (unsent_logs r); reflexivity.
Qed.

Lemma all_marked_length rows : List.length (all_marked rows) = List.length rows.
Proof. apply length_map. Qed.

Lemma sent_count rows :
  forallb is_sent rows = true -> List.length (filter is_sent rows) = List.length rows.
Proof.
  induction rows as [|r tl IH]; [reflexivity|].
  simpl. intros H. apply andb_true_iff in H. destruct H as [Hr Ht].
  rewrite Hr. simpl. now rewrite IH.
Qed.

(** C3 (the code does otherwise). A batch of [n >= 1] events, with values
    within the bounds of the columns, appended to an empty outbox through the
    outbox client, and one run of the job on a store that is up: the outbox
    then has [n] rows, all sent and none unsent, each with the tuple it was
    persisted with; but the store has received none of them: the rows handed
    to the client are generators, the client raises on them before it sends
    anything, and the error is logged and goes no further. *)
Theorem outbox_round_trip
    (data : list Model) (w : World)
    (Hdata : data <> []) (Henc : encodable data) (Hfit : within_bounds w data)
    (Hempty : outbox w = [])
    (Hconnect : ch_connect_fault w = None)
    (Hstore : ch_insert_fault w = None) :
  let n := List.length data in
  exists w1 w2,
    OutboxEventLogClient.insert data w = (Return tt, w1) /\
    send_unsent_logs_to_clickhouse w1 = (Return (success_status n), w2) /\
    List.length (outbox w1) = n /\
    List.length (filter is_sent (outbox w2)) = n /\
    filter unsent_logs (outbox w2) = [] /\
    map persisted (outbox w2) = map persisted (outbox w1) /\
    ch_table w2 = ch_table w /\
    logged w2 = logged w ++
                [{| level := ERROR;
                    event := "error while executing clickhouse query";
                    error := "object of type 'generator' has no len()" |}].
Proof.
  intros n.
  destruct (outbox_insert_run data w Henc Hfit)
    as (r & w0 & w1 & Hc & Hlen & Hins & Hw1).
  pose proof (convert_data_frame data w) as [Hw0 _]. rewrite Hc in Hw0. simpl in Hw0.
  assert (Hout : outbox w1 = ORM.number (next_pk w) (outbox_records r))
    by (rewrite Hw1, Hempty; reflexivity).
  assert (Hrows : filter unsent_logs (outbox w1) = outbox w1)
    by (rewrite Hout; apply number_unsent, outbox_records_unsent).
  assert (Hn : List.length (outbox w1) = n).
  { rewrite Hout, number_length. unfold outbox_records. now rewrite length_map. }
  assert (Hne : filter unsent_logs (outbox w1) <> []).
  { rewrite Hrows. intros E. rewrite E in Hn. simpl in Hn.
    destruct data; [now apply Hdata | discriminate]. }
  assert (Hc1 : ch_connect_fault w1 = None) by (rewrite Hw1, Hw0; exact Hconnect).
  assert (Hs1 : ch_insert_fault w1 = None) by (rewrite Hw1, Hw0; exact Hstore).
  assert (Ht1 : ch_table w1 = ch_table w) by (rewrite Hw1, Hw0; reflexivity).
  assert (Hl1 : logged w1 = logged w) by (rewrite Hw1, Hw0; reflexivity).
  exists w1.
  rewrite (send_unsent_logs_run w1 (proj2 (exists_unsent _) Hne)).
  destruct (flush_rejected (set_var_logs_to_send None (set_var_log None w1))
              Hc1 Hs1 Hne)
    as (w2 & Hrun & Hout2 & Hpk2 & Hvar2 & Htable2 & Hlog2 & _).
  cbn [outbox ch_table logged set_var_logs_to_send set_var_log] in *.
  unfold bind. rewrite Hrun, (mark_and_report_run w2 _ Hvar2).
  rewrite generators_length, Hrows, Hn.
  eexists. split; [exact Hins|]. split; [reflexivity|].
  cbn [outbox ch_table logged set_outbox]. rewrite Hout2.
  split; [reflexivity|]. split.
  { rewrite sent_count by apply all_marked_sent. now rewrite all_marked_length. }
  split; [apply all_marked_unsent|]. split; [apply all_marked_persisted|].
  split; [now rewrite Htable2, Ht1|]. now rewrite Hlog2, Hl1.
Qed.

Lemma outbox_round_trip_witness :
  let ev1 := {| class_name := "UserCreated"; model_dump_json := Return "{1}" |} in
  let ev2 := {| class_name := "UserDeleted"; model_dump_json := Return "{2}" |} in
  let w := {| settings := {| ENVIRONMENT := "Local"; EVENT_SAVER_TYPE := "OUTBOX" |};
              clock := Z.of_nat; tick := 0; outbox := []; next_pk := 1;
              ch_table := []; ch_connect_fault := None; ch_insert_fault := None;
              ch_open := 0; logged := []; var_log := None;
              var_logs_to_send := None |} in
  exists w1 w2,
    OutboxEventLogClient.insert [ev1; ev2] w = (Return tt, w1) /\
    send_unsent_logs_to_clickhouse w1 = (Return (success_status 2), w2) /\
    List.length (outbox w1) = 2 /\
    List.length (filter is_sent (outbox w2)) = 2 /\
    filter unsent_logs (outbox w2) = [] /\
    map persisted (outbox w2) = map persisted (outbox w1) /\
    ch_table w2 = ch_table w /\
    logged w2 = logged w ++
                [{| level := ERROR;
                    event := "error while executing clickhouse query";
                    error := "object of type 'generator' has no len()" |}].
Proof.
  intros ev1 ev2 w.
  apply (outbox_round_trip [ev1; ev2] w).
  - discriminate.
  - constructor; [exists "{1}"%string; reflexivity|].
    constructor; [exists "{2}"%string; reflexivity | constructor].
  - split; [simpl; unfold ENVIRONMENT_MAX_LENGTH; lia|].
    constructor; [vm_compute; lia|]. constructor; [vm_compute; lia | constructor].
  - reflexivity.
  - reflexivity.
  - reflexivity.
Defined.

(** The input on which the store does not hold the persisted tuples: two
    events appended and one run of the job; the rows are marked sent and the
    store's table is empty. *)
Example two_events_round_trip :
  let ev1 := {| class_name := "UserCreated"; model_dump_json := Return "{1}" |} in
  let ev2 := {| class_name := "UserDeleted"; model_dump_json := Return "{2}" |} in
  let w := {| settings := {| ENVIRONMENT := "Local"; EVENT_SAVER_TYPE := "OUTBOX" |};
              clock := Z.of_nat; tick := 0; outbox := []; next_pk := 1;
              ch_table := []; ch_connect_fault := None; ch_insert_fault := None;
              ch_open := 0; logged := []; var_log := None;
              var_logs_to_send := None |} in
  let w2 := snd ((OutboxEventLogClient.insert [ev1; ev2] ;;;
                  send_unsent_logs_to_clickhouse) w) in
  map persisted (outbox w2) =
    [[VStr "user_created"; VTime 0; VStr "Local"; VStr "{1}"];
     [VStr "user_deleted"; VTime 1; VStr "Local"; VStr "{2}"]] /\
  forallb is_sent (outbox w2) = true /\
  ch_table w2 = [] /\
  ch_table w2 <> map persisted (outbox w2).
Proof. repeat split; try reflexivity. discriminate. Qed.

(** * Further properties of the code *)

(** ** Event-type derivation *)

Lemma code_ascii_of_nat n : n < 256 -> code (ascii_of_nat n) = n.
Proof. apply nat_ascii_embedding. Qed.

Lemma lower_char_not_upper c : is_upper (lower_char c) = false.
Proof.
  unfold lower_char. destruct (is_upper c) eqn:E; [|exact E].
  assert (H : 65 <= code c /\ code c <= 90).
  { unfold is_upper in E. apply andb_true_iff in E.
    rewrite !Nat.leb_le in E. exact E. }
  unfold is_upper. rewrite code_ascii_of_nat by lia.
  apply andb_false_iff. right. apply Nat.leb_gt. lia.
Qed.

Lemma chars_str l : chars (str l) = l.
Proof. apply list_ascii_of_string_of_list_ascii. Qed.

Lemma lower_all_not_upper s :
  forallb (fun c => negb (is_upper c)) (lower s) = true.
Proof.
  induction s as [|c tl IH]; [reflexivity|].
  simpl. now rewrite lower_char_not_upper, IH.
Qed.

(** The event type has no uppercase letter, whatever the name; and it begins
    with the lowercased first character of the name, never with an added
    underscore. *)
Theorem to_snake_case_no_upper (name : string) :
  forallb (fun c => negb (is_upper c)) (chars (_to_snake_case name)) = true /\
  hd_error (chars (_to_snake_case name)) =
    option_map lower_char (hd_error (chars name)).
Proof.
  unfold _to_snake_case. rewrite chars_str.
  split; [apply lower_all_not_upper|].
  assert (Hhd : forall m s, (forall c tl repl len,
                   m (c :: tl) = Some (repl, len) -> hd_error repl = Some c) ->
                 hd_error (Re.sub m s) = hd_error s).
  { intros m s Hm. destruct s as [|c tl]; [reflexivity|].
    destruct (m (c :: tl)) as [[repl len]|] eqn:E.
    - rewrite (sub_match _ _ _ _ _ E). specialize (Hm _ _ _ _ E).
      destruct repl; [discriminate | exact Hm].
    - now rewrite (sub_nomatch _ _ _ E). }
  assert (H1 : hd_error (Re.sub Re.upper_word (chars name)) = hd_error (chars name)).
  { apply Hhd. intros c tl repl len E. unfold Re.upper_word in E.
    destruct tl as [|u [|l rest]]; try discriminate.
    destruct (is_dot c && is_upper u && is_lower l); [|discriminate].
    now injection E as <- _. }
  assert (H2 : hd_error (Re.sub Re.lower_upper (Re.sub Re.upper_word (chars name)))
               = hd_error (chars name)).
  { rewrite <- H1. apply Hhd. intros c tl repl len E. unfold Re.lower_upper in E.
    destruct tl as [|u rest]; try discriminate.
    destruct (is_lower_or_digit c && is_upper u); [|discriminate].
    now injection E as <- _. }
  rewrite <- H2.
  destruct (Re.sub Re.lower_upper (Re.sub Re.upper_word (chars name))); reflexivity.
Qed.

Lemma sub_no_match m : forall s,
  (forall c tl, m (c :: tl) = None \/ is_upper c = true \/
                exists u rest, tl = u :: rest /\ is_upper u = true) ->
  forallb (fun c => negb (is_upper c)) s = true ->
  Re.sub m s = s.
Proof.
  intros s Hm. induction s as [|c tl IH]; intros Hs; [reflexivity|].
  simpl in Hs. apply andb_true_iff in Hs. destruct Hs as [Hc Ht].
  apply negb_true_iff in Hc.
  destruct (Hm c tl) as [Hn|[Hu|(u & rest & -> & Hu)]].
  - rewrite (sub_nomatch _ _ _ Hn). now rewrite IH.
  - congruence.
  - simpl in Ht. rewrite Hu in Ht. discriminate.
Qed.

Lemma upper_word_needs_upper c tl :
  Re.upper_word (c :: tl) = None \/ is_upper c = true \/
  exists u rest, tl = u :: rest /\ is_upper u = true.
Proof.
  destruct tl as [|u [|l rest]]; [now left | now left|].
  unfold Re.upper_word. destruct (is_upper u) eqn:Hu.
  - right. right. now exists u, (l :: rest).
  - left. now rewrite andb_false_r.
Qed.

Lemma lower_upper_needs_upper c tl :
  Re.lower_upper (c :: tl) = None \/ is_upper c = true \/
  exists u rest, tl = u :: rest /\ is_upper u = true.
Proof.
  destruct tl as [|u rest]; [now left|].
  unfold Re.lower_upper. destruct (is_upper u) eqn:Hu.
  - right. right. now exists u, rest.
  - left. now rewrite andb_false_r.
Qed.

Lemma lower_no_upper s :
  forallb (fun c => negb (is_upper c)) s = true -> lower s = s.
Proof.
  induction s as [|c tl IH]; intros H; [reflexivity|].
  simpl in H. apply andb_true_iff in H. destruct H as [Hc Ht].
  apply negb_true_iff in Hc. simpl. now rewrite (lower_char_id _ Hc), IH.
Qed.

Lemma str_chars s : str (chars s) = s.
Proof. apply string_of_list_ascii_of_string. Qed.

(** An ASCII name without uppercase letters is its own event type; so, for
    an ASCII name, the derivation applied to the event type gives the event
    type back. *)
Theorem to_snake_case_idempotent (name : string) (Hascii : ascii_name name = true) :
  (forallb (fun c => negb (is_upper c)) (chars name) = true ->
   _to_snake_case name = name) /\
  _to_snake_case (_to_snake_case name) = _to_snake_case name.
Proof.
  clear Hascii.
  assert (Hfix : forall n,
             forallb (fun c => negb (is_upper c)) (chars n) = true ->
             _to_snake_case n = n).
  { intros n Hn. unfold _to_snake_case.
    rewrite (sub_no_match _ _ upper_word_needs_upper Hn).
    rewrite (sub_no_match _ _ lower_upper_needs_upper Hn).
    now rewrite (lower_no_upper _ Hn), str_chars. }
  split; [apply Hfix|]. apply Hfix.
  unfold _to_snake_case. rewrite chars_str. apply lower_all_not_upper.
Qed.

Lemma to_snake_case_is_spec name :
  one_line name = true -> _to_snake_case name = snake_spec name.
Proof.
  intros H. unfold _to_snake_case, snake_spec. f_equal.
  rewrite (sub_lower_upper_from _ _ None (le_n _)).
  - apply (two_passes _ _ None (le_n _) H). exact I.
  - destruct (Re.sub Re.upper_word (chars name)); [exact I | reflexivity].
Qed.

Lemma letters_sep (b : bool) x :
  letters ((if b then [underscore] else []) ++ x) = letters x.
Proof. destruct b; reflexivity. Qed.

Lemma snake_spec_from_letters s : forall prev,
  letters (snake_spec_from prev s) = letters (lower s).
Proof.
  induction s as [|c tl IH]; intros prev; [reflexivity|].
  simpl snake_spec_from. rewrite letters_sep.
  unfold letters in *. simpl. now rewrite IH.
Qed.

Lemma snake_spec_from_length s : forall prev,
  List.length s <= List.length (snake_spec_from prev s) /\
  List.length (snake_spec_from prev s) <= 2 * List.length s /\
  (prev = None -> List.length (snake_spec_from prev s) <= 2 * List.length s - 1).
Proof.
  induction s as [|c tl IH]; intros prev; [simpl; repeat split; lia|].
  simpl snake_spec_from. rewrite length_app.
  destruct (IH (Some c)) as (Hlo & Hhi & _).
  cbn [List.length].
  destruct prev as [p|].
  - destruct (underscore_between p c (hd_error tl)); cbn [List.length];
      repeat split; try lia; discriminate.
  - cbn [List.length]. repeat split; lia.
Qed.

Lemma to_snake_case_idempotent_witness :
  ascii_name "HTTPRequestLog" = true /\
  (forallb (fun c => negb (is_upper c)) (chars "HTTPRequestLog") = true ->
   _to_snake_case "HTTPRequestLog" = "HTTPRequestLog"%string) /\
  _to_snake_case (_to_snake_case "HTTPRequestLog") = _to_snake_case "HTTPRequestLog".
Proof.
  split; [reflexivity|].
  apply (to_snake_case_idempotent "HTTPRequestLog"). reflexivity.
Defined.

(** For an ASCII name without line feeds, the event type is the lowercased name
    with underscores added and nothing else: without their underscores the
    two are the same text; and a name of [n] characters gives an event type
    of at least [n] and at most [2n - 1] characters. *)
Theorem to_snake_case_adds_underscores (name : string)
    (Hascii : ascii_name name = true) (H : one_line name = true) :
  letters (chars (_to_snake_case name)) = letters (lower (chars name)) /\
  List.length (chars name) <= List.length (chars (_to_snake_case name)) /\
  List.length (chars (_to_snake_case name)) <= 2 * List.length (chars name) - 1.
Proof.
  clear Hascii.
  rewrite (to_snake_case_is_spec name H). unfold snake_spec. rewrite chars_str.
  destruct (snake_spec_from_length (chars name) None) as (Hlo & _ & Hhi).
  split; [apply snake_spec_from_letters|]. split; [exact Hlo | now apply Hhi].
Qed.

Lemma to_snake_case_adds_underscores_witness :
  ascii_name "HTTPRequestLog" = true /\
  one_line "HTTPRequestLog" = true /\
  letters (chars (_to_snake_case "HTTPRequestLog")) =
    letters (lower (chars "HTTPRequestLog")) /\
  List.length (chars "HTTPRequestLog") <=
    List.length (chars (_to_snake_case "HTTPRequestLog")) /\
  List.length (chars (_to_snake_case "HTTPRequestLog")) <=
    2 * List.length (chars "HTTPRequestLog") - 1.
Proof.
  split; [reflexivity|]. split; [reflexivity|].
  apply (to_snake_case_adds_underscores "HTTPRequestLog"); reflexivity.
Defined.

(** ** Conversion of a batch *)

(** A batch whose payloads can all be encoded gives one record per event, in
    the order of the batch: the [i]-th record has the event type derived
    from the class name of the [i]-th event, the [i]-th reading of the clock
    counted from the start of the conversion, the configured environment and
    the event's JSON text; the clock is read once per event and nothing else
    changes. *)
Theorem convert_data_records (data : list Model) : forall (w : World)
    (Hdata : encodable data),
  exists r,
    _convert_data data w = (Return r, set_tick (tick w + List.length data) w) /\
    List.length r = List.length data /\
    forall i event, nth_error data i = Some event ->
      exists ctx, model_dump_json event = Return ctx /\
        nth_error r i =
          Some (_to_snake_case (class_name event), clock w (tick w + i),
                ENVIRONMENT (settings w), ctx).
Proof.
  induction data as [|x tl IH]; intros w Hdata.
  - exists []. rewrite Nat.add_0_r. split; [destruct w; reflexivity|].
    split; [reflexivity|]. intros [|i] event H; discriminate.
  - inversion Hdata as [|? ? [ctx Hx] Htl]; subst.
    destruct (IH (set_tick (S (tick w)) w) Htl) as (r & Hrun & Hlen & Hnth).
    rewrite convert_data_cons. cbv zeta. rewrite Hx, Hrun.
    eexists. split.
    + cbn [tick set_tick List.length]. rewrite <- Nat.add_succ_comm. reflexivity.
    + split; [simpl; now rewrite Hlen|].
      intros [|i] event Hev.
      * injection Hev as <-. exists ctx. rewrite Nat.add_0_r. now split.
      * destruct (Hnth i event Hev) as (ctx' & Hc & Hr).
        exists ctx'. split; [exact Hc|].
        cbn [nth_error]. rewrite Hr. cbn [tick set_tick clock settings].
        now rewrite <- Nat.add_succ_comm.
Qed.

Lemma convert_data_records_witness :
  let ev1 := {| class_name := "UserCreated"; model_dump_json := Return "{1}" |} in
  let ev2 := {| class_name := "HTTPRequestLog"; model_dump_json := Return "{2}" |} in
  let w := {| settings := {| ENVIRONMENT := "Local"; EVENT_SAVER_TYPE := "OUTBOX" |};
              clock := fun n => (100 + Z.of_nat n)%Z; tick := 3; outbox := [];
              next_pk := 1; ch_table := []; ch_connect_fault := None;
              ch_insert_fault := None; ch_open := 0; logged := [];
              var_log := None; var_logs_to_send := None |} in
  exists r,
    _convert_data [ev1; ev2] w = (Return r, set_tick 5 w) /\
    List.length r = 2 /\
    forall i event, nth_error [ev1; ev2] i = Some event ->
      exists ctx, model_dump_json event = Return ctx /\
        nth_error r i =
          Some (_to_snake_case (class_name event), clock w (tick w + i),
                ENVIRONMENT (settings w), ctx).
Proof.
  intros ev1 ev2 w.
  apply (convert_data_records [ev1; ev2] w).
  constructor; [exists "{1}"%string; reflexivity|].
  constructor; [exists "{2}"%string; reflexivity | constructor].
Defined.

(** ** The outbox client *)

Lemma number_persisted converted : forall n,
  map persisted (ORM.number n (outbox_records converted)) = map tuple_of converted.
Proof.
  induction converted as [|[[[et dt] env] ctx] tl IH]; intros n; [reflexivity|].
  simpl. f_equal. apply IH.
Qed.

Lemma number_keys records : forall n,
  map pk (ORM.number n records) = seq n (List.length records).
Proof.
  induction records as [|r tl IH]; intros n; [reflexivity|].
  simpl. f_equal. apply IH.
Qed.

Lemma outbox_records_length converted :
  List.length (outbox_records converted) = List.length converted.
Proof. apply length_map. Qed.

(** [insert] of the outbox client on a batch whose payloads can be encoded
    and whose values are within the bounds of the columns:
    the rows that were there stay as they are, and one row per event is
    added after them, in the order of the batch, holding the converted
    record, unsent, with the next keys of the sequence; the store and the
    log are not touched. *)
Theorem outbox_insert_appends (data : list Model) (w : World)
    (Hdata : encodable data) (Hfit : within_bounds w data) :
  exists converted rows w',
    fst (_convert_data data w) = Return converted /\
    OutboxEventLogClient.insert data w = (Return tt, w') /\
    outbox w' = outbox w ++ rows /\
    map persisted rows = map tuple_of converted /\
    Forall (fun r => is_sent r = false) rows /\
    map pk rows = seq (next_pk w) (List.length data) /\
    next_pk w' = next_pk w + List.length data /\
    ch_table w' = ch_table w /\ logged w' = logged w /\ ch_open w' = ch_open w.
Proof.
  destruct (outbox_insert_run data w Hdata Hfit)
    as (r & w0 & w1 & Hc & Hlen & Hins & Hw1).
  pose proof (convert_data_frame data w) as [Hw0 _]. rewrite Hc in Hw0. simpl in Hw0.
  exists r, (ORM.number (next_pk w) (outbox_records r)), w1.
  split; [now rewrite Hc|]. split; [exact Hins|].
  rewrite Hw1. cbn [outbox next_pk ch_table logged ch_open set_outbox].
  split; [reflexivity|]. split; [apply number_persisted|].
  split.
  { assert (Hall : forall recs n, Forall (fun r => is_sent r = false) recs ->
                     Forall (fun r => is_sent r = false) (ORM.number n recs)).
    { clear. induction recs as [|x tl IH]; intros n H; [constructor|].
      inversion H; subst. constructor; [assumption | now apply IH]. }
    apply Hall, outbox_records_unsent. }
  split; [now rewrite number_keys, outbox_records_length, Hlen|].
  split; [now rewrite Hlen|].
  rewrite Hw0. repeat split.
Qed.

Lemma outbox_insert_appends_witness :
  let ev := {| class_name := "TestModel";
               model_dump_json := Return "{field1:1,field2:2}" |} in
  let old := {| pk := 1; event_type := "user_created"; event_date_time := 5;
                environment := "Local"; event_context := "{}"; is_sent := true |} in
  let w := {| settings := {| ENVIRONMENT := "Local"; EVENT_SAVER_TYPE := "OUTBOX" |};
              clock := Z.of_nat; tick := 0; outbox := [old]; next_pk := 2;
              ch_table := []; ch_connect_fault := None; ch_insert_fault := None;
              ch_open := 0; logged := []; var_log := None;
              var_logs_to_send := None |} in
  exists converted rows w',
    fst (_convert_data [ev] w) = Return converted /\
    OutboxEventLogClient.insert [ev] w = (Return tt, w') /\
    outbox w' = outbox w ++ rows /\
    map persisted rows = map tuple_of converted /\
    Forall (fun r => is_sent r = false) rows /\
    map pk rows = seq (next_pk w) (List.length [ev]) /\
    next_pk w' = next_pk w + List.length [ev] /\
    ch_table w' = ch_table w /\ logged w' = logged w /\ ch_open w' = ch_open w.
Proof.
  intros ev old w.
  apply (outbox_insert_appends [ev] w).
  - constructor; [exists "{field1:1,field2:2}"%string; reflexivity | constructor].
  - split; [simpl; unfold ENVIRONMENT_MAX_LENGTH; lia|].
    constructor; [vm_compute; lia | constructor].
Defined.

(** The two writing backends record the same thing: for one batch in one
    world, with values within the bounds of the outbox columns, the tuples [insert] of the direct-write client appends to the
    store's table are the tuples of the rows [insert] of the outbox client
    appends to the outbox. *)
Theorem backends_record_the_same
    (self : Driver.Client) (data : list Model) (w : World)
    (Hdata : encodable data) (Hfit : within_bounds w data)
    (Hstore : ch_insert_fault w = None) :
  exists rows sent w_outbox w_direct,
    OutboxEventLogClient.insert data w = (Return tt, w_outbox) /\
    ClickhouseEventLogClient.insert self data w = (Return tt, w_direct) /\
    outbox w_outbox = outbox w ++ rows /\
    ch_table w_direct = ch_table w ++ sent /\
    map persisted rows = sent /\
    List.length sent = List.length data.
Proof.
  destruct (outbox_insert_run data w Hdata Hfit)
    as (r & w0 & w1 & Hc & Hlen & Hins & Hw1).
  destruct (clickhouse_insert_accepted self data w Hstore Hdata)
    as (r' & w2 & Hr' & Hrun & Htable & _).
  rewrite Hc in Hr'. simpl in Hr'. injection Hr' as <-.
  exists (ORM.number (next_pk w) (outbox_records r)), (map tuple_of r), w1, w2.
  split; [exact Hins|]. split; [exact Hrun|].
  split; [now rewrite Hw1|]. split; [exact Htable|].
  split; [apply number_persisted|]. now rewrite length_map.
Qed.

Lemma backends_record_the_same_witness :
  let ev1 := {| class_name := "UserCreated"; model_dump_json := Return "{1}" |} in
  let ev2 := {| class_name := "UserDeleted"; model_dump_json := Return "{2}" |} in
  let w := {| settings := {| ENVIRONMENT := "Local"; EVENT_SAVER_TYPE := "OUTBOX" |};
              clock := Z.of_nat; tick := 0; outbox := []; next_pk := 1;
              ch_table := []; ch_connect_fault := None; ch_insert_fault := None;
              ch_open := 1; logged := []; var_log := None;
              var_logs_to_send := None |} in
  exists rows sent w_outbox w_direct,
    OutboxEventLogClient.insert [ev1; ev2] w = (Return tt, w_outbox) /\
    ClickhouseEventLogClient.insert {| Driver.conn := 0 |} [ev1; ev2] w
      = (Return tt, w_direct) /\
    outbox w_outbox = outbox w ++ rows /\
    ch_table w_direct = ch_table w ++ sent /\
    map persisted rows = sent /\
    List.length sent = List.length [ev1; ev2].
Proof.
  intros ev1 ev2 w.
  apply (backends_record_the_same {| Driver.conn := 0 |} [ev1; ev2] w).
  - constructor; [exists "{1}"%string; reflexivity|].
    constructor; [exists "{2}"%string; reflexivity | constructor].
  - split; [simpl; unfold ENVIRONMENT_MAX_LENGTH; lia|].
    constructor; [vm_compute; lia|]. constructor; [vm_compute; lia | constructor].
  - reflexivity.
Defined.

(** ** The direct-write client, other errors *)

Lemma iterate_tuples tuples : forall w,
  for_each Driver.as_sequence (map Tuple tuples) w = (Return tuples, w).
Proof.
  induction tuples as [|t tl IH]; intros w; [reflexivity|].
  cbn [map for_each]. unfold bind at 1. cbn [Driver.as_sequence]. unfold ret at 1.
  unfold bind at 1. now rewrite IH.
Qed.

(** [insert_raw] on rows given as tuples.  A store that accepts appends
    exactly these tuples, in their order, and nothing else changes; a
    [DatabaseError] is logged and the call returns with the table as it was;
    any other exception leaves [insert_raw] with the world untouched. *)
Theorem insert_raw_tuples (self : Driver.Client) (tuples : list (list value))
    (w : World) :
  ClickhouseEventLogClient.insert_raw self (map Tuple tuples) w =
  match ch_insert_fault w with
  | None => (Return tt, set_ch_table (ch_table w ++ tuples) w)
  | Some e =>
      if is_DatabaseError e
      then (Return tt,
            set_logged (logged w ++
                        [{| level := ERROR;
                            event := "unable to insert data to clickhouse";
                            error := str_exn e |}]) w)
      else (Raise e, w)
  end.
Proof.
  unfold ClickhouseEventLogClient.insert_raw, try_except, Driver.insert.
  destruct (ch_insert_fault w) as [e|].
  - destruct (is_DatabaseError e); reflexivity.
  - unfold bind. now rewrite iterate_tuples.
Qed.

(** Only a [DatabaseError] is absorbed by [insert] of the direct-write
    client.  When the store fails with another exception, the exception
    leaves [insert] and nothing is logged; in the scope made by [init] it is
    then logged and goes no further, and the connection is closed. *)
Theorem clickhouse_insert_other_error
    (data : list Model) (w : World) (e : exn)
    (Hconnect : ch_connect_fault w = None)
    (Hfault : ch_insert_fault w = Some e)
    (Hother : is_DatabaseError e = false)
    (Hdata : encodable data) :
  (forall self, exists w',
     ClickhouseEventLogClient.insert self data w = (Raise e, w') /\
     logged w' = logged w /\ ch_table w' = ch_table w /\ outbox w' = outbox w) /\
  exists w',
    ClickhouseEventLogClient.init
      (fun c => ClickhouseEventLogClient.insert c data) w = (Return tt, w') /\
    logged w' = logged w ++ [{| level := ERROR;
                                event := "error while executing clickhouse query";
                                error := str_exn e |}] /\
    ch_table w' = ch_table w /\ ch_open w' = ch_open w.
Proof.
  assert (Hins : forall self w0, same_but_tick w w0 \/ w0 = set_ch_open (S (ch_open w)) w ->
            exists w',
              ClickhouseEventLogClient.insert self data w0 = (Raise e, w') /\
              logged w' = logged w0 /\ ch_table w' = ch_table w0 /\
              outbox w' = outbox w0 /\ ch_open w' = ch_open w0).
  { intros self w0 Hw0.
    assert (Hf0 : ch_insert_fault w0 = Some e).
    { destruct Hw0 as [[-> _]| ->]; exact Hfault. }
    destruct (convert_data_returns data w0 Hdata) as (r & Hr & _).
    pose proof (convert_data_frame data w0) as [Hw _].
    destruct (_convert_data data w0) as [o w1] eqn:Ec. simpl in Hr, Hw. subst o.
    assert (Hf1 : ch_insert_fault w1 = Some e) by (rewrite Hw; exact Hf0).
    unfold ClickhouseEventLogClient.insert, try_except, bind.
    rewrite Ec, (driver_insert_fault _ _ _ _ Hf1), Hother.
    eexists. split; [reflexivity|]. rewrite Hw. repeat split. }
  split.
  - intros self. destruct (Hins self w (or_introl (same_but_tick_refl w)))
      as (w' & Hrun & Hlog & Htable & Hout & _).
    exists w'. repeat split; assumption.
  - unfold ClickhouseEventLogClient.init, bind, Driver.get_client.
    rewrite Hconnect. unfold try_finally, try_except.
    destruct (Hins {| Driver.conn := ch_open w |} (set_ch_open (S (ch_open w)) w)
                (or_intror eq_refl))
      as (w' & Hrun & Hlog & Htable & _ & Hopen).
    rewrite Hrun. eexists. split; [reflexivity|].
    cbn [logged ch_table ch_open set_ch_open set_logged].
    rewrite Hlog, Htable, Hopen. repeat split.
Qed.

Lemma clickhouse_insert_other_error_witness :
  let ev := {| class_name := "UserCreated"; model_dump_json := Return "{}" |} in
  let w := {| settings := {| ENVIRONMENT := "Local"; EVENT_SAVER_TYPE := "CLICKHOUSE" |};
              clock := Z.of_nat; tick := 0; outbox := []; next_pk := 1;
              ch_table := []; ch_connect_fault := None;
              ch_insert_fault := Some (OtherException "broken pipe");
              ch_open := 0; logged := []; var_log := None;
              var_logs_to_send := None |} in
  (forall self, exists w',
     ClickhouseEventLogClient.insert self [ev] w
       = (Raise (OtherException "broken pipe"), w') /\
     logged w' = logged w /\ ch_table w' = ch_table w /\ outbox w' = outbox w) /\
  exists w',
    ClickhouseEventLogClient.init
      (fun c => ClickhouseEventLogClient.insert c [ev]) w = (Return tt, w') /\
    logged w' = logged w ++ [{| level := ERROR;
                                event := "error while executing clickhouse query";
                                error := "broken pipe" |}] /\
    ch_table w' = ch_table w /\ ch_open w' = ch_open w.
Proof.
  intros ev w.
  apply (clickhouse_insert_other_error [ev] w (OtherException "broken pipe")).
  - reflexivity.
  - reflexivity.
  - reflexivity.
  - constructor; [exists "{}"%string; reflexivity | constructor].
Defined.

(** ** The reconciliation job, case by case *)

Lemma send_no_unsent w :
  existsb unsent_logs (outbox w) = false ->
  send_unsent_logs_to_clickhouse w =
  (Return "No unsent logs to process."%string, fresh_frame w).
Proof.
  intros H. unfold send_unsent_logs_to_clickhouse.
  unfold bind at 1. unfold modify at 1.
  unfold bind at 1. unfold ORM.exists_, gets.
  cbn [outbox set_var_logs_to_send set_var_log]. now rewrite H.
Qed.

Lemma send_unreachable w e :
  existsb unsent_logs (outbox w) = true -> ch_connect_fault w = Some e ->
  send_unsent_logs_to_clickhouse w = (Raise e, fresh_frame w).
Proof.
  intros Hsome Hconnect. rewrite (send_unsent_logs_run w Hsome).
  unfold bind at 1. unfold flush_unsent_logs, ClickhouseEventLogClient.init.
  unfold bind at 1. unfold Driver.get_client.
  cbn [ch_connect_fault set_var_logs_to_send set_var_log]. now rewrite Hconnect.
Qed.

(** A run that finds unsent rows and gets its connection: whether the store
    refuses the write or is up, no row reaches the store's table, one error
    is logged, every unsent row is marked and the status counts them. *)
Lemma send_completes w :
  existsb unsent_logs (outbox w) = true -> ch_connect_fault w = None ->
  let rows := filter unsent_logs (outbox w) in
  exists w' e ev,
    send_unsent_logs_to_clickhouse w =
      (Return (success_status (List.length rows)), w') /\
    outbox w' = all_marked (outbox w) /\ next_pk w' = next_pk w /\
    ch_open w' = ch_open w /\
    ch_table w' = ch_table w /\
    logged w' = logged w ++ [{| level := ERROR; event := ev; error := str_exn e |}] /\
    match ch_insert_fault w with
    | Some e' => e = e'
    | None => e = generator_row_error /\
              ev = "error while executing clickhouse query"%string
    end.
Proof.
  intros Hsome Hconnect rows.
  rewrite (send_unsent_logs_run w Hsome). unfold bind.
  destruct (ch_insert_fault w) as [e|] eqn:Hfault.
  - destruct (flush_refused (set_var_logs_to_send None (set_var_log None w)) e
                Hconnect Hfault)
      as (w1 & ev & Hrun & Hout & Hpk & Hvar & Htable & Hlog & Hopen).
    cbn [outbox next_pk ch_table logged ch_open set_var_logs_to_send set_var_log] in *.
    rewrite Hrun, (mark_and_report_run w1 _ Hvar), generators_length.
    eexists. exists e, ev. split; [reflexivity|].
    cbn [outbox next_pk ch_table logged ch_open set_outbox].
    rewrite Hout. repeat split; assumption.
  - destruct (flush_rejected (set_var_logs_to_send None (set_var_log None w))
                Hconnect Hfault (proj1 (exists_unsent _) Hsome))
      as (w1 & Hrun & Hout & Hpk & Hvar & Htable & Hlog & Hopen).
    cbn [outbox next_pk ch_table logged ch_open set_var_logs_to_send set_var_log] in *.
    rewrite Hrun, (mark_and_report_run w1 _ Hvar), generators_length.
    eexists. exists generator_row_error, "error while executing clickhouse query"%string.
    split; [reflexivity|].
    cbn [outbox next_pk ch_table logged ch_open set_outbox].
    rewrite Hout. repeat split; assumption.
Qed.

Lemma all_sent_no_unsent rows :
  Forall (fun r => is_sent r = true) rows <-> existsb unsent_logs rows = false.
Proof.
  induction rows as [|r tl IH]; simpl.
  - split; [reflexivity | constructor].
  - unfold unsent_logs at 1. split.
    + intros H. inversion H as [|? ? Hr Ht]; subst. rewrite Hr. simpl. now apply IH.
    + intros H. apply orb_false_iff in H. destruct H as [Hr Ht].
      constructor; [now apply negb_false_iff in Hr | now apply IH].
Qed.

Lemma all_marked_all_sent rows : Forall (fun r => is_sent r = true) (all_marked rows).
Proof. apply Forall_forall. apply forallb_forall. apply all_marked_sent. Qed.

Lemma all_marked_keys rows : map pk (all_marked rows) = map pk rows.
Proof.
  induction rows as [|r tl IH]; [reflexivity|].
  unfold all_marked in *. simpl. rewrite IH. destruct (unsent_logs r); reflexivity.
Qed.

(** A run that returns leaves no unsent row, so the run after it finds
    nothing to do: it returns the status of nothing to do and changes neither
    the outbox, nor the store's table, nor the log. *)
Theorem send_twice (w w1 : World) (status : string)
    (Hrun : send_unsent_logs_to_clickhouse w = (Return status, w1)) :
  Forall (fun r => is_sent r = true) (outbox w1) /\
  exists w2,
    send_unsent_logs_to_clickhouse w1 =
      (Return "No unsent logs to process."%string, w2) /\
    outbox w2 = outbox w1 /\ ch_table w2 = ch_table w1 /\ logged w2 = logged w1.
Proof.
  assert (Hsent : Forall (fun r => is_sent r = true) (outbox w1)).
  { destruct (existsb unsent_logs (outbox w)) eqn:Hsome.
    - destruct (ch_connect_fault w) as [e|] eqn:Hconnect.
      + rewrite (send_unreachable w e Hsome Hconnect) in Hrun. discriminate.
      + destruct (send_completes w Hsome Hconnect)
          as (w' & e' & ev & Hrun' & Hout & _).
        rewrite Hrun in Hrun'. injection Hrun' as _ <-.
        rewrite Hout. apply all_marked_all_sent.
    - rewrite (send_no_unsent w Hsome) in Hrun. injection Hrun as _ <-.
      now apply all_sent_no_unsent. }
  split; [exact Hsent|].
  exists (fresh_frame w1).
  split; [apply send_no_unsent, all_sent_no_unsent, Hsent|]. repeat split.
Qed.

Lemma send_twice_witness :
  let row := {| pk := 1; event_type := "user_created"; event_date_time := 5;
                environment := "Local"; event_context := "{}"; is_sent := false |} in
  let w := {| settings := {| ENVIRONMENT := "Local"; EVENT_SAVER_TYPE := "OUTBOX" |};
              clock := Z.of_nat; tick := 0; outbox := [row]; next_pk := 2;
              ch_table := []; ch_connect_fault := None; ch_insert_fault := None;
              ch_open := 0; logged := []; var_log := None;
              var_logs_to_send := None |} in
  let w1 := snd (send_unsent_logs_to_clickhouse w) in
  Forall (fun r => is_sent r = true) (outbox w1) /\
  exists w2,
    send_unsent_logs_to_clickhouse w1 =
      (Return "No unsent logs to process."%string, w2) /\
    outbox w2 = outbox w1 /\ ch_table w2 = ch_table w1 /\ logged w2 = logged w1.
Proof.
  intros row w w1.
  apply (send_twice w w1 "Successfully sent 1 logs to Clickhouse."). reflexivity.
Defined.




(** No run of the job leaves a connection open: whether there was nothing to
    do, the store could not be reached, or the write was accepted or refused,
    as many connections are open after the run as before. *)
Theorem send_closes_connection (w : World) :
  ch_open (snd (send_unsent_logs_to_clickhouse w)) = ch_open w.
Proof.
  destruct (existsb unsent_logs (outbox w)) eqn:Hsome.
  - destruct (ch_connect_fault w) as [e|] eqn:Hconnect.
    + now rewrite (send_unreachable w e Hsome Hconnect).
    + destruct (send_completes w Hsome Hconnect)
        as (w' & e & ev & Hrun & _ & _ & Hopen & _).
      now rewrite Hrun.
  - now rewrite (send_no_unsent w Hsome).
Qed.

(** ** Keys of the outbox *)

Lemma keys_filter (p : EventLogOutbox -> bool) rows :
  NoDup (map pk rows) -> NoDup (map pk (filter p rows)).
Proof.
  induction rows as [|r tl IH]; intros H; [constructor|].
  simpl in H. inversion H as [|? ? Hnot Htl]; subst. simpl.
  destruct (p r); [|now apply IH]. simpl. constructor; [|now apply IH].
  intros Hin. apply Hnot. apply in_map_iff in Hin. destruct Hin as (x & Hx & Hin).
  apply in_map_iff. exists x. split; [exact Hx|].
  apply filter_In in Hin. apply Hin.
Qed.

Lemma well_keyed_frame w w' :
  outbox w' = outbox w -> next_pk w' = next_pk w -> well_keyed w -> well_keyed w'.
Proof. unfold well_keyed. now intros -> ->. Qed.

Lemma well_keyed_marked w w' :
  outbox w' = all_marked (outbox w) -> next_pk w' = next_pk w ->
  well_keyed w -> well_keyed w'.
Proof.
  unfold well_keyed. intros Hout Hpk [Hnd Hlt]. rewrite Hout, Hpk.
  split; [now rewrite all_marked_keys|].
  apply Forall_forall. intros r Hr.
  assert (Hk : In (pk r) (map pk (outbox w))).
  { rewrite <- all_marked_keys. now apply in_map. }
  apply in_map_iff in Hk. destruct Hk as (x & Hx & Hin). rewrite <- Hx.
  rewrite Forall_forall in Hlt. now apply Hlt.
Qed.

Lemma well_keyed_appended w w' records :
  outbox w' = outbox w ++ ORM.number (next_pk w) records ->
  next_pk w' = next_pk w + List.length records ->
  well_keyed w -> well_keyed w'.
Proof.
  unfold well_keyed. intros Hout Hpk [Hnd Hlt]. rewrite Hout, Hpk.
  rewrite Forall_forall in Hlt. split.
  - rewrite map_app, number_keys. apply NoDup_app; [exact Hnd | apply seq_NoDup|].
    intros k Hk Hseq. apply in_seq in Hseq.
    apply in_map_iff in Hk. destruct Hk as (x & Hx & Hin).
    specialize (Hlt x Hin). lia.
  - apply Forall_forall. intros r Hr. apply in_app_or in Hr. destruct Hr as [Hr|Hr].
    + specialize (Hlt r Hr). lia.
    + assert (Hk : In (pk r) (seq (next_pk w) (List.length records)))
        by (rewrite <- number_keys; now apply in_map).
      apply in_seq in Hk. lia.
Qed.

(** The keys of the outbox stay distinct and below the next key of the
    sequence through every operation of the code on the table: [insert] of
    the outbox client on any batch (converted or failing), a run of the
    reconciliation job with any answer of the store, and a run of the
    retention job. *)
Theorem outbox_keys_kept (w : World) (H : well_keyed w) :
  (forall data, well_keyed (snd (OutboxEventLogClient.insert data w))) /\
  well_keyed (snd (send_unsent_logs_to_clickhouse w)) /\
  well_keyed (snd (delete_sent_logs w)).
Proof.
  split; [|split].
  - intros data.
    pose proof (convert_data_frame data w) as [Hw0 _].
    unfold OutboxEventLogClient.insert, bind.
    destruct (_convert_data data w) as [[r|e] w0]; simpl in Hw0.
    + unfold OutboxEventLogClient._save_to_outbox, ORM.bulk_create.
      fold (outbox_records r).
      destruct (forallb fits_columns (outbox_records r)).
      * unfold modify. cbn [snd].
        apply (well_keyed_appended w _ (outbox_records r)); [| |exact H].
        -- rewrite Hw0. reflexivity.
        -- rewrite Hw0. reflexivity.
      * cbn [snd raise]. apply (well_keyed_frame w); [| |exact H]; now rewrite Hw0.
    + cbn [snd]. apply (well_keyed_frame w); [| |exact H]; now rewrite Hw0.
  - destruct (existsb unsent_logs (outbox w)) eqn:Hsome.
    + destruct (ch_connect_fault w) as [e|] eqn:Hconnect.
      * rewrite (send_unreachable w e Hsome Hconnect).
        now apply (well_keyed_frame w).
      * destruct (send_completes w Hsome Hconnect)
          as (w' & e & ev & Hrun & Hout & Hpk & _).
        rewrite Hrun. now apply (well_keyed_marked w).
    + rewrite (send_no_unsent w Hsome). now apply (well_keyed_frame w).
  - unfold delete_sent_logs, bind, timezone_now, ORM.delete, ret. cbn [snd].
    destruct H as [Hnd Hlt]. split.
    + cbn [outbox set_outbox set_tick]. now apply keys_filter.
    + cbn [outbox next_pk set_outbox set_tick].
      apply Forall_forall. intros r Hr. apply filter_In in Hr.
      rewrite Forall_forall in Hlt. now apply Hlt.
Qed.

Lemma outbox_keys_kept_witness :
  let row := {| pk := 1; event_type := "user_created"; event_date_time := 5;
                environment := "Local"; event_context := "{}"; is_sent := false |} in
  let w := {| settings := {| ENVIRONMENT := "Local"; EVENT_SAVER_TYPE := "OUTBOX" |};
              clock := Z.of_nat; tick := 0; outbox := [row]; next_pk := 2;
              ch_table := []; ch_connect_fault := None; ch_insert_fault := None;
              ch_open := 0; logged := []; var_log := None;
              var_logs_to_send := None |} in
  well_keyed w /\
  (forall data, well_keyed (snd (OutboxEventLogClient.insert data w))) /\
  well_keyed (snd (send_unsent_logs_to_clickhouse w)) /\
  well_keyed (snd (delete_sent_logs w)).
Proof.
  intros row w.
  assert (H : well_keyed w).
  { split.
    - constructor; [intros []|constructor].
    - constructor; [simpl; lia | constructor]. }
  split; [exact H|]. exact (outbox_keys_kept w H).
Defined.

(** ** The retention job, composed *)

Lemma kept_unsent (q : EventLogOutbox -> bool) rows :
  filter unsent_logs (filter (fun r => negb (is_sent r && q r)) rows) =
  filter unsent_logs rows.
Proof.
  induction rows as [|r tl IH]; [reflexivity|].
  unfold unsent_logs in *. simpl.
  destruct (is_sent r) eqn:Es; simpl.
  - destruct (q r); simpl; rewrite ?Es; simpl; exact IH.
  - rewrite Es. simpl. now rewrite IH.
Qed.

Lemma filter_twice {A} (p : A -> bool) l : filter p (filter p l) = filter p l.
Proof.
  induction l as [|x tl IH]; [reflexivity|].
  simpl. destruct (p x) eqn:E; [simpl; now rewrite E, IH | exact IH].
Qed.

Lemma filter_none {A} (p : A -> bool) l :
  filter p (filter (fun x => negb (p x)) l) = [].
Proof.
  induction l as [|x tl IH]; [reflexivity|].
  simpl. destruct (p x) eqn:E; simpl; [exact IH | now rewrite E].
Qed.

(** A second run of the retention job at the same reading of the clock
    deletes nothing: it reports zero rows and the outbox is as the first run
    left it. *)
Theorem delete_sent_logs_twice (w : World)
    (Hsame : clock w (S (tick w)) = clock w (tick w)) :
  let w1 := snd (delete_sent_logs w) in
  fst (delete_sent_logs w1) = Return "Deleted 0 sent logs."%string /\
  outbox (snd (delete_sent_logs w1)) = outbox w1.
Proof.
  unfold delete_sent_logs, bind, timezone_now, ORM.delete, ret.
  cbn [fst snd outbox next_pk clock tick set_outbox set_tick].
  rewrite Hsame. rewrite filter_none, filter_twice. split; reflexivity.
Qed.

Lemma delete_sent_logs_twice_witness :
  let day := 86400000000%Z in
  let row n t s := {| pk := n; event_type := "user_created"; event_date_time := t;
                      environment := "Local"; event_context := "{}"; is_sent := s |} in
  let w := {| settings := {| ENVIRONMENT := "Local"; EVENT_SAVER_TYPE := "OUTBOX" |};
              clock := fun _ => (100 * day)%Z; tick := 0;
              outbox := [row 1 (69 * day)%Z true; row 2 (99 * day)%Z true];
              next_pk := 3;
              ch_table := []; ch_connect_fault := None; ch_insert_fault := None;
              ch_open := 0; logged := []; var_log := None;
              var_logs_to_send := None |} in
  let w1 := snd (delete_sent_logs w) in
  fst (delete_sent_logs w1) = Return "Deleted 0 sent logs."%string /\
  outbox (snd (delete_sent_logs w1)) = outbox w1.
Proof.
  intros day row w. apply (delete_sent_logs_twice w). reflexivity.
Defined.

Lemma existsb_of_filter rows rows' :
  filter unsent_logs rows = filter unsent_logs rows' ->
  existsb unsent_logs rows = existsb unsent_logs rows'.
Proof.
  intros H.
  destruct (existsb unsent_logs rows) eqn:E; destruct (existsb unsent_logs rows') eqn:E';
    try reflexivity.
  - apply exists_unsent in E. rewrite H in E. apply exists_unsent in E. congruence.
  - apply exists_unsent in E'. rewrite <- H in E'. apply exists_unsent in E'. congruence.
Qed.

(** The retention job does not change what the reconciliation job does next:
    run after it, the reconciliation job has the outcome (status or
    exception) it would have had without it, and leaves the store's table with
    the same rows. *)
Theorem delete_then_send (w : World) :
  let w1 := snd (delete_sent_logs w) in
  fst (send_unsent_logs_to_clickhouse w1) = fst (send_unsent_logs_to_clickhouse w) /\
  ch_table (snd (send_unsent_logs_to_clickhouse w1)) =
    ch_table (snd (send_unsent_logs_to_clickhouse w)).
Proof.
  intros w1.
  set (q := fun r : EventLogOutbox =>
              Z.ltb (event_date_time r) (clock w (tick w) - timedelta_days 30)).
  assert (Hout : outbox w1 = filter (fun r => negb (is_sent r && q r)) (outbox w))
    by reflexivity.
  assert (Hrows : filter unsent_logs (outbox w1) = filter unsent_logs (outbox w))
    by (rewrite Hout; apply kept_unsent).
  assert (Hc : ch_connect_fault w1 = ch_connect_fault w) by reflexivity.
  assert (Hf : ch_insert_fault w1 = ch_insert_fault w) by reflexivity.
  assert (Ht : ch_table w1 = ch_table w) by reflexivity.
  pose proof (existsb_of_filter _ _ Hrows) as Hex.
  clearbody w1. clear Hout q.
  destruct (existsb unsent_logs (outbox w)) eqn:Hsome.
  - destruct (ch_connect_fault w) as [e|] eqn:Hconnect.
    + rewrite (send_unreachable w e Hsome Hconnect).
      rewrite (send_unreachable w1 e Hex Hc). now split.
    + destruct (send_completes w Hsome Hconnect)
        as (w' & e & ev & Hrun & _ & _ & _ & Htable & _).
      destruct (send_completes w1 Hex Hc)
        as (w1' & e1 & ev1 & Hrun1 & _ & _ & _ & Htable1 & _).
      rewrite Hrun, Hrun1. cbn [fst snd]. rewrite Hrows.
      split; [reflexivity|]. now rewrite Htable, Htable1, Ht.
  - rewrite (send_no_unsent w Hsome), (send_no_unsent w1 Hex). now split.
Qed.

(** ** Use cases *)

(** When there is nothing to save (the business operation raised, or
    returned no result, or the use case has saving turned off), [execute] is
    the business operation and no more: the same outcome and the same world.
    The configured backend is not looked up, so a name no backend has does
    not raise here. *)
Theorem execute_without_events {Req R} (self : UseCase Req R) (request : Req)
    (w : World)
    (Hnone : match _execute self request w with
             | (Return response, _) =>
                 is_save_event_logs self = false \/ result response = None
             | (Raise _, _) => True
             end) :
  execute self request w = _execute self request w.
Proof.
  unfold execute, bind.
  destruct (_execute self request w) as [[response|e] w1]; [|reflexivity].
  destruct Hnone as [-> | Hres]; [reflexivity|].
  rewrite Hres. destruct (is_save_event_logs self); reflexivity.
Qed.

Lemma execute_without_events_witness :
  let self := {| is_save_event_logs := true;
                 _execute := fun _ : string =>
                   ret {| result := @None string;
                          response_error := "User with this email already exists" |};
                 _convert_response_to_log_models := fun _ => [] |} in
  let w := {| settings := {| ENVIRONMENT := "Local"; EVENT_SAVER_TYPE := "NOPE" |};
              clock := Z.of_nat; tick := 0; outbox := []; next_pk := 1;
              ch_table := []; ch_connect_fault := None; ch_insert_fault := None;
              ch_open := 0; logged := []; var_log := None;
              var_logs_to_send := None |} in
  execute self "test@email.com" w = _execute self "test@email.com" w.
Proof.
  intros self w.
  apply (execute_without_events self "test@email.com" w).
  right. reflexivity.
Defined.

(** Under the discard backend [execute] is the business operation and no
    more, whatever the events are: they are not converted, so even a payload
    that cannot be encoded changes nothing. *)
Theorem execute_stub {Req R} (self : UseCase Req R) (request : Req) (w : World)
    (Hstub : forall response w1,
       _execute self request w = (Return response, w1) ->
       EVENT_SAVER_TYPE (settings w1) = "STUB"%string) :
  execute self request w = _execute self request w.
Proof.
  unfold execute, bind.
  destruct (_execute self request w) as [[response|e] w1] eqn:E; [|reflexivity].
  destruct (is_save_event_logs self); [|reflexivity].
  destruct (result response) as [r|]; [|reflexivity].
  unfold save_event_logs, bind, gets, lift.
  rewrite (Hstub response w1 eq_refl). reflexivity.
Qed.

Lemma execute_stub_witness :
  let bad := {| class_name := "UserCreated";
                model_dump_json := Raise (SerializationError "email") |} in
  let self := {| is_save_event_logs := true;
                 _execute := fun email : string =>
                   ret {| result := Some email; response_error := "" |};
                 _convert_response_to_log_models := fun _ => [bad] |} in
  let w := {| settings := {| ENVIRONMENT := "Local"; EVENT_SAVER_TYPE := "STUB" |};
              clock := Z.of_nat; tick := 0; outbox := []; next_pk := 1;
              ch_table := []; ch_connect_fault := None; ch_insert_fault := None;
              ch_open := 0; logged := []; var_log := None;
              var_logs_to_send := None |} in
  execute self "test@email.com" w = _execute self "test@email.com" w.
Proof.
  intros bad self w.
  apply (execute_stub self "test@email.com" w).
  intros response w1 H. injection H as _ <-. reflexivity.
Defined.

(** Under the direct-write backend, when the connection to the store cannot
    be made, the exception of [get_client] leaves [execute]: the caller gets
    the exception in place of the response of the business operation, whose
    effects on the world stay. *)
Theorem execute_direct_write_unreachable {Req R} (self : UseCase Req R)
    (request : Req) (w w1 : World) (response : UseCaseResponse R) (r : R) (e : exn)
    (Hexec : _execute self request w = (Return response, w1))
    (Hflag : is_save_event_logs self = true)
    (Hres : result response = Some r)
    (Hname : EVENT_SAVER_TYPE (settings w1) = "CLICKHOUSE"%string)
    (Hconnect : ch_connect_fault w1 = Some e) :
  execute self request w = (Raise e, w1).
Proof.
  unfold execute, bind. rewrite Hexec, Hflag, Hres.
  unfold save_event_logs, bind, gets, lift. rewrite Hname.
  cbn [get_event_saver String.eqb Ascii.eqb Bool.eqb].
  unfold init, ClickhouseEventLogClient.init, bind, Driver.get_client.
  now rewrite Hconnect.
Qed.

Lemma execute_direct_write_unreachable_witness :
  let ev := {| class_name := "UserCreated"; model_dump_json := Return "{}" |} in
  let self := {| is_save_event_logs := true;
                 _execute := fun email : string =>
                   ret {| result := Some email; response_error := "" |};
                 _convert_response_to_log_models := fun _ => [ev] |} in
  let w := {| settings := {| ENVIRONMENT := "Local"; EVENT_SAVER_TYPE := "CLICKHOUSE" |};
              clock := Z.of_nat; tick := 0; outbox := []; next_pk := 1;
              ch_table := []; ch_connect_fault := Some (OtherException "refused");
              ch_insert_fault := None; ch_open := 0; logged := [];
              var_log := None; var_logs_to_send := None |} in
  execute self "test@email.com" w = (Raise (OtherException "refused"), w).
Proof.
  intros ev self w.
  apply (execute_direct_write_unreachable self "test@email.com" w w
           {| result := Some "test@email.com"%string; response_error := "" |}
           "test@email.com"%string (OtherException "refused"));
    reflexivity.
Defined.

Lemma execute_direct_write_witness :
  let bad := {| class_name := "UserCreated";
                model_dump_json := Raise (SerializationError "email") |} in
  let self := {| is_save_event_logs := true;
                 _execute := fun email : string =>
                   ret {| result := Some email; response_error := "" |};
                 _convert_response_to_log_models := fun _ => [bad] |} in
  let w := {| settings := {| ENVIRONMENT := "Local"; EVENT_SAVER_TYPE := "CLICKHOUSE" |};
              clock := Z.of_nat; tick := 0; outbox := []; next_pk := 1;
              ch_table := []; ch_connect_fault := None;
              ch_insert_fault := Some (DatabaseError "timeout");
              ch_open := 0; logged := []; var_log := None;
              var_logs_to_send := None |} in
  exists w',
    execute self "test@email.com" w =
      (Return {| result := Some "test@email.com"%string; response_error := "" |}, w').
Proof.
  intros bad self w.
  apply (execute_direct_write string string self "test@email.com" w
           {| result := Some "test@email.com"%string; response_error := "" |} w);
    reflexivity.
Defined.

(** Under the outbox backend, a use case whose business operation returned a
    result and whose events can be encoded, with values within the bounds of
    the outbox columns, returns that response, and the
    outbox has one new unsent row per event after the rows the business
    operation left, the store being untouched. *)
Theorem execute_outbox {Req R} (self : UseCase Req R)
    (request : Req) (w w1 : World) (response : UseCaseResponse R) (r : R)
    (Hexec : _execute self request w = (Return response, w1))
    (Hflag : is_save_event_logs self = true)
    (Hres : result response = Some r)
    (Hname : EVENT_SAVER_TYPE (settings w1) = "OUTBOX"%string)
    (Hdata : encodable (_convert_response_to_log_models self r))
    (Hfit : within_bounds w1 (_convert_response_to_log_models self r)) :
  exists rows w',
    execute self request w = (Return response, w') /\
    outbox w' = outbox w1 ++ rows /\
    List.length rows = List.length (_convert_response_to_log_models self r) /\
    Forall (fun row => is_sent row = false) rows /\
    ch_table w' = ch_table w1.
Proof.
  destruct (outbox_insert_run _ w1 Hdata Hfit)
    as (c & w0 & w2 & Hc & Hlen & Hins & Hw2).
  pose proof (convert_data_frame (_convert_response_to_log_models self r) w1) as [Hw0 _].
  rewrite Hc in Hw0. simpl in Hw0.
  exists (ORM.number (next_pk w1) (outbox_records c)), w2.
  split.
  - unfold execute, bind. rewrite Hexec, Hflag, Hres.
    unfold save_event_logs, bind, gets, lift. rewrite Hname.
    cbn [get_event_saver String.eqb Ascii.eqb Bool.eqb init insert].
    now rewrite Hins.
  - rewrite Hw2. cbn [outbox ch_table set_outbox].
    split; [reflexivity|].
    split; [now rewrite number_length, outbox_records_length|].
    split; [|now rewrite Hw0].
    assert (Hall : forall recs n, Forall (fun x => is_sent x = false) recs ->
                     Forall (fun x => is_sent x = false) (ORM.number n recs)).
    { clear. induction recs as [|x tl IH]; intros n H; [constructor|].
      inversion H; subst. constructor; [assumption | now apply IH]. }
    apply Hall, outbox_records_unsent.
Qed.

Lemma execute_outbox_witness :
  let ev := {| class_name := "UserCreated"; model_dump_json := Return "{}" |} in
  let self := {| is_save_event_logs := true;
                 _execute := fun email : string =>
                   ret {| result := Some email; response_error := "" |};
                 _convert_response_to_log_models := fun _ => [ev] |} in
  let w := {| settings := {| ENVIRONMENT := "Local"; EVENT_SAVER_TYPE := "OUTBOX" |};
              clock := Z.of_nat; tick := 0; outbox := []; next_pk := 1;
              ch_table := []; ch_connect_fault := None; ch_insert_fault := None;
              ch_open := 0; logged := []; var_log := None;
              var_logs_to_send := None |} in
  exists rows w',
    execute self "test@email.com" w =
      (Return {| result := Some "test@email.com"%string; response_error := "" |}, w') /\
    outbox w' = outbox w ++ rows /\
    List.length rows = 1 /\
    Forall (fun row => is_sent row = false) rows /\
    ch_table w' = ch_table w.
Proof.
  intros ev self w.
  apply (execute_outbox self "test@email.com" w w
           {| result := Some "test@email.com"%string; response_error := "" |}
           "test@email.com"%string); try reflexivity.
  - constructor; [exists "{}"%string; reflexivity | constructor].
  - split; [simpl; unfold ENVIRONMENT_MAX_LENGTH; lia|].
    constructor; [vm_compute; lia | constructor].
Defined.

(** ** The decorator *)

(** A function decorated with the direct-write backend returns what the
    function returned, whatever the insertion does, once the connection is
    made: when [insert] returns, the entry of a successful insertion is
    logged; when it raises, the error is logged in its place; either way the
    connection is closed. *)
Theorem decorated_direct_write {Args : Type} (func : Args -> M (list Model))
    (args : Args) (w w1 : World) (result : list Model)
    (Hfunc : func args w = (Return result, w1))
    (Hconnect : ch_connect_fault w1 = None) :
  let client := ClickhouseClient {| Driver.conn := ch_open w1 |} in
  let opened := set_ch_open (S (ch_open w1)) w1 in
  exists w',
    insert_to_event_log (init ClickhouseEventLogClient_cls) func args w =
      (Return result, w') /\
    ch_open w' = pred (ch_open (snd (insert client result opened))) /\
    match fst (insert client result opened) with
    | Return _ =>
        logged w' = logged (snd (insert client result opened)) ++ [inserted_entry]
    | Raise e =>
        logged w' = logged (snd (insert client result opened)) ++
                    [{| level := ERROR;
                        event := "error while executing clickhouse query";
                        error := str_exn e |}]
    end.
Proof.
  intros client opened.
  unfold insert_to_event_log. unfold bind at 1. rewrite Hfunc.
  unfold bind at 1. unfold init, ClickhouseEventLogClient.init.
  unfold bind at 1. unfold Driver.get_client. rewrite Hconnect.
  fold opened. unfold try_finally, try_except. unfold bind at 1.
  change (insert (ClickhouseClient {| Driver.conn := ch_open w1 |}) result opened)
    with (insert client result opened).
  destruct (insert client result opened) as [[[]|e] wb];
    eexists; repeat split.
Qed.

Lemma decorated_direct_write_witness :
  let ev := {| class_name := "UserCreated"; model_dump_json := Return "{}" |} in
  let func := fun _ : unit => ret [ev] in
  let w := {| settings := {| ENVIRONMENT := "Local"; EVENT_SAVER_TYPE := "CLICKHOUSE" |};
              clock := Z.of_nat; tick := 0; outbox := []; next_pk := 1;
              ch_table := []; ch_connect_fault := None;
              ch_insert_fault := Some (OtherException "broken pipe");
              ch_open := 0; logged := []; var_log := None;
              var_logs_to_send := None |} in
  exists w',
    insert_to_event_log (init ClickhouseEventLogClient_cls) func tt w =
      (Return [ev], w') /\
    ch_open w' = 0 /\
    logged w' = [{| level := ERROR;
                    event := "error while executing clickhouse query";
                    error := "broken pipe" |}].
Proof.
  intros ev func w.
  destruct (decorated_direct_write func tt w w [ev] eq_refl eq_refl)
    as (w' & Hrun & Hopen & Hlog).
  exists w'. split; [exact Hrun|]. split; [exact Hopen | exact Hlog].
Defined.

(** A function decorated with the outbox backend whose result has a payload
    that cannot be encoded: the wrapper raises the serialization error
    although the function returned; the outbox is as the function left it
    and no insertion is logged. *)
Theorem decorated_outbox_serialization_error {Args : Type}
    (func : Args -> M (list Model)) (args : Args) (w w1 : World)
    (result : list Model) (event : Model) (e : exn)
    (Hfunc : func args w = (Return result, w1))
    (Hin : In event result) (Hbad : model_dump_json event = Raise e) :
  exists e' event' w',
    In event' result /\ model_dump_json event' = Raise e' /\
    insert_to_event_log (init OutboxEventLogClient_cls) func args w = (Raise e', w') /\
    outbox w' = outbox w1 /\ logged w' = logged w1.
Proof.
  destruct (convert_data_raises result w1 event e Hin Hbad)
    as (e' & event' & Hin' & Hbad' & Hfst).
  pose proof (convert_data_frame result w1) as [Hw _].
  destruct (_convert_data result w1) as [o w'] eqn:Ec. simpl in Hfst, Hw. subst o.
  exists e', event', w'. split; [exact Hin'|]. split; [exact Hbad'|].
  split.
  - unfold insert_to_event_log. unfold bind at 1. rewrite Hfunc.
    unfold bind at 1. cbn [init insert]. unfold bind at 1.
    unfold OutboxEventLogClient.insert. unfold bind at 1. now rewrite Ec.
  - rewrite Hw. split; reflexivity.
Qed.

Lemma decorated_outbox_serialization_error_witness :
  let bad := {| class_name := "UserCreated";
                model_dump_json := Raise (SerializationError "email") |} in
  let func := fun _ : unit => ret [bad] in
  let w := {| settings := {| ENVIRONMENT := "Local"; EVENT_SAVER_TYPE := "OUTBOX" |};
              clock := Z.of_nat; tick := 0; outbox := []; next_pk := 1;
              ch_table := []; ch_connect_fault := None; ch_insert_fault := None;
              ch_open := 0; logged := []; var_log := None;
              var_logs_to_send := None |} in
  exists e' event' w',
    In event' [bad] /\ model_dump_json event' = Raise e' /\
    insert_to_event_log (init OutboxEventLogClient_cls) func tt w = (Raise e', w') /\
    outbox w' = outbox w /\ logged w' = logged w.
Proof.
  intros bad func w.
  apply (decorated_outbox_serialization_error func tt w w [bad] bad
           (SerializationError "email")).
  - reflexivity.
  - left. reflexivity.
  - reflexivity.
Defined.

(** A function decorated with the outbox backend whose result can be
    encoded, with values within the bounds of the outbox columns, returns
    that result; the outbox has one new unsent row per event
    of the result, and the insertion is logged once. *)
Theorem decorated_outbox {Args : Type}
    (func : Args -> M (list Model)) (args : Args) (w w1 : World)
    (result : list Model)
    (Hfunc : func args w = (Return result, w1))
    (Hdata : encodable result) (Hfit : within_bounds w1 result) :
  exists rows w',
    insert_to_event_log (init OutboxEventLogClient_cls) func args w =
      (Return result, w') /\
    outbox w' = outbox w1 ++ rows /\
    List.length rows = List.length result /\
    Forall (fun row => is_sent row = false) rows /\
    logged w' = logged w1 ++ [inserted_entry].
Proof.
  destruct (outbox_insert_run result w1 Hdata Hfit)
    as (c & w0 & w2 & Hc & Hlen & Hins & Hw2).
  pose proof (convert_data_frame result w1) as [Hw0 _].
  rewrite Hc in Hw0. simpl in Hw0.
  exists (ORM.number (next_pk w1) (outbox_records c)).
  eexists. split.
  - unfold insert_to_event_log. unfold bind at 1. rewrite Hfunc.
    unfold bind at 1. cbn [init insert]. unfold bind at 1.
    rewrite Hins. reflexivity.
  - cbn [outbox logged set_logged]. rewrite Hw2. cbn [outbox logged set_outbox].
    split; [reflexivity|].
    split; [now rewrite number_length, outbox_records_length|].
    split; [|now rewrite Hw0].
    assert (Hall : forall recs n, Forall (fun x => is_sent x = false) recs ->
                     Forall (fun x => is_sent x = false) (ORM.number n recs)).
    { clear. induction recs as [|x tl IH]; intros n H; [constructor|].
      inversion H; subst. constructor; [assumption | now apply IH]. }
    apply Hall, outbox_records_unsent.
Qed.

Lemma decorated_outbox_witness :
  let ev := {| class_name := "UserCreated"; model_dump_json := Return "{}" |} in
  let func := fun _ : unit => ret [ev; ev] in
  let w := {| settings := {| ENVIRONMENT := "Local"; EVENT_SAVER_TYPE := "OUTBOX" |};
              clock := Z.of_nat; tick := 0; outbox := []; next_pk := 1;
              ch_table := []; ch_connect_fault := None; ch_insert_fault := None;
              ch_open := 0; logged := []; var_log := None;
              var_logs_to_send := None |} in
  exists rows w',
    insert_to_event_log (init OutboxEventLogClient_cls) func tt w =
      (Return [ev; ev], w') /\
    outbox w' = outbox w ++ rows /\
    List.length rows = 2 /\
    Forall (fun row => is_sent row = false) rows /\
    logged w' = logged w ++ [inserted_entry].
Proof.
  intros ev func w.
  apply (decorated_outbox func tt w w [ev; ev]); [reflexivity| |].
  - constructor; [exists "{}"%string; reflexivity|].
    constructor; [exists "{}"%string; reflexivity | constructor].
  - split; [simpl; unfold ENVIRONMENT_MAX_LENGTH; lia|].
    constructor; [vm_compute; lia|]. constructor; [vm_compute; lia | constructor].
Defined.

(** ** The direct-write client and payloads that cannot be encoded *)

(** [insert] of the direct-write client converts inside its [try], but its
    handler takes the store's errors only: when a payload cannot be encoded,
    the serialization error leaves [insert], the store is not asked to write
    and nothing is logged. *)
Theorem clickhouse_insert_serialization_error
    (self : Driver.Client) (data : list Model) (w : World) (event : Model) (e : exn)
    (Hin : In event data) (Hbad : model_dump_json event = Raise e)
    (Hkind : forall ev e', In ev data -> model_dump_json ev = Raise e' ->
                           is_DatabaseError e' = false) :
  exists e' event' w',
    In event' data /\ model_dump_json event' = Raise e' /\
    ClickhouseEventLogClient.insert self data w = (Raise e', w') /\
    ch_table w' = ch_table w /\ logged w' = logged w /\ outbox w' = outbox w.
Proof.
  destruct (convert_data_raises data w event e Hin Hbad)
    as (e' & event' & Hin' & Hbad' & Hfst).
  pose proof (convert_data_frame data w) as [Hw _].
  destruct (_convert_data data w) as [o w'] eqn:Ec. simpl in Hfst, Hw. subst o.
  exists e', event', w'. split; [exact Hin'|]. split; [exact Hbad'|].
  split.
  - unfold ClickhouseEventLogClient.insert, try_except, bind.
    now rewrite Ec, (Hkind event' e' Hin' Hbad').
  - rewrite Hw. repeat split.
Qed.

Lemma clickhouse_insert_serialization_error_witness :
  let bad := {| class_name := "UserCreated";
                model_dump_json := Raise (SerializationError "email") |} in
  let w := {| settings := {| ENVIRONMENT := "Local"; EVENT_SAVER_TYPE := "CLICKHOUSE" |};
              clock := Z.of_nat; tick := 0; outbox := []; next_pk := 1;
              ch_table := []; ch_connect_fault := None; ch_insert_fault := None;
              ch_open := 1; logged := []; var_log := None;
              var_logs_to_send := None |} in
  exists e' event' w',
    In event' [bad] /\ model_dump_json event' = Raise e' /\
    ClickhouseEventLogClient.insert {| Driver.conn := 0 |} [bad] w = (Raise e', w') /\
    ch_table w' = ch_table w /\ logged w' = logged w /\ outbox w' = outbox w.
Proof.
  intros bad w.
  apply (clickhouse_insert_serialization_error {| Driver.conn := 0 |} [bad] w bad
           (SerializationError "email")).
  - left. reflexivity.
  - reflexivity.
  - intros ev e' [<-|[]] H. simpl in H. injection H as <-. reflexivity.
Defined.
